(** * background-graph-entities: the history downsampler and [setConfig]

    A shallow embedding of [src/background-graph-entities.ts].

    The card's [_downsampleHistory] turns the raw state changes of an entity
    into one time-weighted mean per fixed-width bucket.  Its arithmetic is
    the arithmetic of JavaScript numbers, so the embedding is written once,
    over an interface [Number] of the operations the method uses, and is
    run at two instances:

    - [float]: IEEE 754 binary64, the numbers the code really computes with
      (Rocq's primitive floats), used to evaluate the method on concrete
      inputs exactly as a JavaScript engine does, and for the properties
      that are proved of the method as it runs: those that rest on the
      order of the doubles, on the quotient always having a value, and on
      whole numbers below 2^53, with which the doubles compute exactly;
    - [Q]: exact rationals, the arithmetic the comments of the code reason
      in, used where rounding decides: a property proved there is said to
      hold in exact arithmetic, and what the doubles do instead is shown on
      an input.

    A [Date] holds a whole number of milliseconds ([new Date(x)] clips [x]
    towards zero), and the two [new Date()] calls of the method are two
    reads of the clock, both parameters of the embedding. *)

From Stdlib Require Import ZArith QArith Qround List Bool Lia Lqa Floats.
From Stdlib Require Import Permutation Sorted.
From Stdlib Require String.
Import ListNotations.

Set Implicit Arguments.

(** ** Outcomes

    A call either returns, or (in exact arithmetic, where a quotient by zero
    has no value) divides by zero, or never leaves its loop. *)

Inductive outcome (A : Type) : Type :=
| Returns (a : A)
| DividesByZero
| RunsForever.

Arguments DividesByZero {A}.
Arguments RunsForever {A}.

Definition bind {A B : Type} (m : outcome A) (k : A -> outcome B) : outcome B :=
  match m with
  | Returns a => k a
  | DividesByZero => DividesByZero
  | RunsForever => RunsForever
  end.

Notation "x <- m ;; k" := (bind m (fun x => k))
  (at level 61, m at next level, right associativity).

(** ** The numbers of the program *)

Class Number (R : Type) : Type := {
  (** an integer literal, or the loop counter [i], as a number *)
  of_Z : Z -> R;
  add : R -> R -> R;
  sub : R -> R -> R;
  mul : R -> R -> R;
  (** [a / b]; [None] where the arithmetic has no value for it *)
  div : R -> R -> option R;
  ltb : R -> R -> bool;
  leb : R -> R -> bool;
  Math_max : R -> R -> R;
  Math_min : R -> R -> R;
  Math_ceil : R -> R;
  (** how often the body of [for (let i = 0; i < n; i++)] runs;
      [None] when the loop never ends *)
  iterations : R -> option nat;
  (** [Date] objects: [getTime] and the constructor [new Date(x)] *)
  Date : Type;
  getTime : Date -> R;
  new_Date : R -> Date
}.

Definition divide {R} `{Number R} (a b : R) : outcome R :=
  match div a b with
  | Some q => Returns q
  | None => DividesByZero
  end.

(** Constants of the module. *)
Definition MS_IN_S : Z := 1000.
Definition S_IN_MIN : Z := 60.
Definition MIN_IN_H : Z := 60.
Definition MS_IN_H : Z := MIN_IN_H * S_IN_MIN * MS_IN_S.

(** ** [_downsampleHistory] *)

Section Downsample.
Context {R : Type} {num : Number R}.

(** An element of a history: [{ timestamp: Date; value: number }]. *)
Record point : Type := Point { timestamp : Date; value : R }.

Definition zero : R := of_Z 0.

(** [xs.pop()] read as a value: the last element, if any. *)
Fixpoint pop (xs : list point) : option point :=
  match xs with
  | [] => None
  | x :: rest => match rest with [] => Some x | _ :: _ => pop rest end
  end.

(** One round of the inner loop: the share that [currentState], which
    lasts until [nextState], has in the bucket. *)
Definition contribute (bucketStartTime bucketEndTime : R)
    (currentState nextState : point) (acc : R * R) : R * R :=
  let '(weightedSum, totalDurationInBucket) := acc in
  let start := Math_max (getTime (timestamp currentState)) bucketStartTime in
  let end_ := Math_min (getTime (timestamp nextState)) bucketEndTime in
  if ltb start end_ then
    let duration := sub end_ start in
    (add weightedSum (mul (value currentState) duration),
     add totalDurationInBucket duration)
  else acc.

(** The inner loop, [k] from [0] to [statesWithEndpoints.length - 2]. *)
Fixpoint weigh (bucketStartTime bucketEndTime : R)
    (statesWithEndpoints : list point) (acc : R * R) : R * R :=
  match statesWithEndpoints with
  | [] => acc
  | currentState :: rest =>
      match rest with
      | [] => acc
      | nextState :: _ =>
          weigh bucketStartTime bucketEndTime rest
            (contribute bucketStartTime bucketEndTime currentState nextState acc)
      end
  end.

(** [states.filter((s) => s.timestamp.getTime() <= bucketEndTime).pop()?.value ?? lastValue] *)
Definition carried (states : list point) (bucketEndTime lastValue : R) : R :=
  match pop (filter (fun s => leb (getTime (timestamp s)) bucketEndTime) states) with
  | Some s => value s
  | None => lastValue
  end.

Section Buckets.
Variables (states statesWithEndpoints : list point).
Variables (startTime : Date) (interval : R).

Definition bucketStartTime (i : nat) : R :=
  add (getTime startTime) (mul (of_Z (Z.of_nat i)) interval).

Definition bucketEndTime (i : nat) : R := add (bucketStartTime i) interval.

Definition bucketTimestamp (i : nat) : Date :=
  new_Date (add (getTime startTime)
                (mul (add (of_Z (Z.of_nat i)) (of_Z 1)) interval)).

(** [weightedSum] and [totalDurationInBucket] of bucket [i] after the inner
    loop. *)
Definition sums (i : nat) : R * R :=
  weigh (bucketStartTime i) (bucketEndTime i) statesWithEndpoints (zero, zero).

(** The outer loop: [n] rounds are left, the counter is [i]. *)
Fixpoint buckets (n i : nat) (lastValue : R) (downsampled : list point)
  : outcome (list point) :=
  match n with
  | O => Returns downsampled
  | S n' =>
      let '(weightedSum, totalDurationInBucket) := sums i in
      if ltb zero totalDurationInBucket then
        valueForBucket <- divide weightedSum totalDurationInBucket ;;
        buckets n' (S i) (carried states (bucketEndTime i) lastValue)
          (downsampled ++ [Point (bucketTimestamp i) valueForBucket])
      else
        buckets n' (S i) lastValue
          (downsampled ++ [Point (bucketTimestamp i) lastValue])
  end.

(** The variable [lastValue] as bucket [i] finds it, when the loop was
    entered with [lastValue0]. *)
Fixpoint lastValue_before (lastValue0 : R) (i : nat) : R :=
  match i with
  | O => lastValue0
  | S j =>
      if ltb zero (snd (sums j)) then
        carried states (bucketEndTime j) (lastValue_before lastValue0 j)
      else lastValue_before lastValue0 j
  end.
End Buckets.

(** [[...states, { timestamp: new Date(), value: states[states.length - 1]?.value ?? 0 }]] *)
Definition statesWithEndpoints (endpoint : Date) (states : list point) : list point :=
  states ++ [Point endpoint (match pop states with Some s => value s | None => zero end)].

(** [new Date(now.getTime() - hours * MS_IN_H)] *)
Definition startTime (now : Date) (hours : R) : Date :=
  new_Date (sub (getTime now) (mul hours (of_Z MS_IN_H))).

(** [states.length > 0 ? states[0].value : 0] *)
Definition firstValue (states : list point) : R :=
  match states with s0 :: _ => value s0 | [] => zero end.

(** The method.  [endpoint] is the clock as read for the virtual last
    state, [now] the clock as read on the line after it. *)
Definition _downsampleHistory (endpoint now : Date)
    (states : list point) (hours pointsPerHour : R) : outcome (list point) :=
  if leb pointsPerHour zero || (List.length states =? 0)%nat then
    Returns states
  else
    interval <- divide (of_Z MS_IN_H) pointsPerHour ;;
    ratio <- divide (sub (getTime now) (getTime (startTime now hours))) interval ;;
    let numBuckets := Math_ceil ratio in
    match iterations numBuckets with
    | None => RunsForever
    | Some n =>
        downsampled <- buckets states (statesWithEndpoints endpoint states)
                         (startTime now hours) interval
                         n 0 (firstValue states) [] ;;
        Returns (match states with
                 | s0 :: _ => Point (startTime now hours) (value s0) :: downsampled
                 | [] => downsampled
                 end)
    end.

(** The range of the values of a history that is not empty:
    [Math.min(...states.map((s) => s.value))] and [Math.max] likewise. *)
Definition lowest (states : list point) : R :=
  fold_right (fun s m => Math_min (value s) m) (firstValue states) states.

Definition highest (states : list point) : R :=
  fold_right (fun s m => Math_max (value s) m) (firstValue states) states.

(** A history entry whose [Date] and value are whole numbers. *)
Definition at_ (t v : Z) : point := Point (new_Date (of_Z t)) (of_Z v).
End Downsample.

Arguments point R {num}.
Arguments Point {R num} timestamp value.

(** ** The value an empty bucket takes, in the words of the comments

    "Find the last actual value at or before the end of this bucket to
    carry forward" and "If the bucket is empty, use the last known value":
    written here without the variable [lastValue], to be compared with what
    the loop does. *)

Section Carried.
Context {R : Type} {num : Number R}.


End Carried.

(** ** Exact arithmetic

  Numbers are rationals; a quotient by zero has no value.  A [Date] is its
  time value, a whole number of milliseconds, and [new Date(x)] drops the
  fraction of [x].  Three things of the doubles are not in it: rounding,
  the range limit of [Date] (there is no invalid date), and a loop counter
  that stops growing (every loop ends).  What is proved here is proved of
  this arithmetic only; the properties of the timestamps, of the number of
  buckets and of the method returning are proved in double arithmetic
  below. *)

Module Exact.
Definition Qtruncate (x : Q) : Z := Z.quot (Qnum x) (Zpos (Qden x)).

Definition Qdiv_opt (a b : Q) : option Q :=
  if Qeq_bool b 0 then None else Some (a / b)%Q.

Definition Qltb (a b : Q) : bool := negb (Qle_bool b a).

Definition Qmax (a b : Q) : Q := if Qle_bool a b then b else a.
Definition Qmin (a b : Q) : Q := if Qle_bool a b then a else b.

#[global] Instance number : Number Q := {|
  of_Z := inject_Z;
  add := Qplus;
  sub := Qminus;
  mul := Qmult;
  div := Qdiv_opt;
  ltb := Qltb;
  leb := Qle_bool;
  Math_max := Qmax;
  Math_min := Qmin;
  Math_ceil := fun x => inject_Z (Qceiling x);
  iterations := fun n => Some (Z.to_nat (Qceiling n));
  Date := Z;
  getTime := inject_Z;
  new_Date := Qtruncate
|}.
End Exact.

(** ** IEEE 754 double precision

  Numbers are binary64 floats with the operations of the processor.  A
  [Date] is its time value, a float that is a whole number or [NaN];
  [new Date(x)] is the [TimeClip] of ECMAScript. *)

Module Double.
Definition from_Z (z : Z) : float :=
  match z with
  | Z0 => 0%float
  | Zpos _ => of_uint63 (Uint63.of_Z z)
  | Zneg p => PrimFloat.opp (of_uint63 (Uint63.of_Z (Zpos p)))
  end.

(** The whole part of [m * 2^e] for [e < 0], and whether a fraction is
    left. *)
Definition whole (m : positive) (e : Z) : Z := Zpos m / 2 ^ (- e).
Definition fraction (m : positive) (e : Z) : bool :=
  negb (Zpos m mod 2 ^ (- e) =? 0)%Z.

(** [Math.ceil]: a float with [e >= 0] is a whole number already. *)
Definition ceil (x : float) : float :=
  match Prim2SF x with
  | S754_finite s m e =>
      if (0 <=? e)%Z then x
      else if s then PrimFloat.opp (from_Z (whole m e))
      else from_Z (if fraction m e then whole m e + 1 else whole m e)
  | _ => x
  end.

(** [Math.max] and [Math.min]: [NaN] if an argument is, and [+0] above
    [-0]. *)
Definition max (a b : float) : float :=
  if PrimFloat.is_nan a || PrimFloat.is_nan b then nan
  else if PrimFloat.ltb a b then b
  else if PrimFloat.ltb b a then a
  else if PrimFloat.eqb a 0 then PrimFloat.add a b
  else a.

Definition min (a b : float) : float :=
  if PrimFloat.is_nan a || PrimFloat.is_nan b then nan
  else if PrimFloat.ltb a b then a
  else if PrimFloat.ltb b a then b
  else if PrimFloat.eqb a 0 then
    PrimFloat.opp (PrimFloat.add (PrimFloat.opp a) (PrimFloat.opp b))
  else a.

(** [TimeClip]: [NaN] outside 8.64e15 ms around the epoch, else the whole
    part, never [-0]. *)
Definition TimeClip (x : float) : float :=
  match Prim2SF x with
  | S754_finite s m e =>
      if PrimFloat.ltb 8640000000000000 (PrimFloat.abs x) then nan
      else if (0 <=? e)%Z then x
      else from_Z (if s then - whole m e else whole m e)
  | S754_zero _ => 0%float
  | _ => nan
  end.

(** [for (let i = 0; i < n; i++)]: no round when [n] is [NaN] or not
    positive; the counter stops growing at 2^53, so the loop never ends
    when [n] is larger. *)
Definition rounds (n : float) : option nat :=
  match Prim2SF n with
  | S754_finite false m e =>
      if PrimFloat.leb n 9007199254740992 then
        Some (Z.to_nat (if (0 <=? e)%Z then Zpos m * 2 ^ e
                        else if fraction m e then whole m e + 1 else whole m e))
      else None
  | S754_infinity false => None
  | _ => Some O
  end.

#[global] Instance number : Number float := {|
  of_Z := from_Z;
  add := PrimFloat.add;
  sub := PrimFloat.sub;
  mul := PrimFloat.mul;
  div := fun a b => Some (PrimFloat.div a b);
  ltb := PrimFloat.ltb;
  leb := PrimFloat.leb;
  Math_max := max;
  Math_min := min;
  Math_ceil := ceil;
  iterations := rounds;
  Date := float;
  getTime := fun d => d;
  new_Date := TimeClip
|}.
End Double.

(** ** The doubles in order, and the whole numbers among them

    For the properties that are proved of the method as it runs, in double
    arithmetic.  A double other than [NaN] has a place in the order of
    [SFcompare], the comparison of the specification of IEEE 754 that comes
    with the primitive floats.  A whole number [a] with [|a| < 2^53] is a
    double, [Double.from_Z a], whose mantissa is [a] scaled to 53 binary
    digits. *)

Definition place (x : spec_float) : Z * Z * Z :=
  match x with
  | S754_zero _ => (0, 0, 0)
  | S754_infinity s => (if s then -2 else 2, 0, 0)
  | S754_nan => (0, 0, 0)
  | S754_finite s m e => if s then (-1, - e, - Zpos m) else (1, e, Zpos m)
  end%Z.

(** The lexicographic order of the places. *)
Definition lower (a b : Z * Z * Z) : Prop :=
  let '(a1, a2, a3) := a in
  let '(b1, b2, b3) := b in
  (a1 < b1 \/ (a1 = b1 /\ (a2 < b2 \/ (a2 = b2 /\ a3 < b3))))%Z.

Definition sf_not_nan (x : spec_float) : Prop := x <> S754_nan.

Definition not_nan (x : float) : Prop := sf_not_nan (Prim2SF x).
Definition rank (x : float) : Z * Z * Z := place (Prim2SF x).

(** [c * 2^k] on positive numbers. *)
Definition scale (c : positive) (k : Z) : positive :=
  match k with Zpos p => Pos.iter xO c p | _ => c end.

(** The number of binary digits of [c]. *)
Definition digits (c : positive) : Z := Zpos (digits2_pos c).

(** The double that is the whole number [a], for [|a| < 2^53]. *)
Definition whole_sf (a : Z) : spec_float :=
  match a with
  | Z0 => S754_zero false
  | Zpos c => S754_finite false (scale c (53 - digits c)) (digits c - 53)
  | Zneg c => S754_finite true (scale c (53 - digits c)) (digits c - 53)
  end%Z.

Definition safe (a : Z) : Prop := (- 2 ^ 53 < a < 2 ^ 53)%Z.

(** The time, in whole milliseconds, that the state interval from [a] to
    [b] has in the bucket from [bs] to [be]. *)
Definition shared (bs be a b : Z) : Z := Z.max 0 (Z.min b be - Z.max a bs).

(** The sum of it over the state intervals between the stamps. *)
Fixpoint total_shared (bs be : Z) (stamps : list Z) : Z :=
  match stamps with
  | [] => 0
  | a :: rest =>
      match rest with
      | [] => 0
      | b :: _ => shared bs be a b + total_shared bs be rest
      end
  end%Z.


(** ** Predicates on histories, for the properties below *)


(** A state of [sw] other than the last one is stamped at or before [x]. *)
Fixpoint early (x : Q) (sw : list (point Q)) : Prop :=
  match sw with
  | [] => False
  | cur :: rest =>
      match rest with
      | [] => False
      | _ :: _ => (getTime (timestamp cur) <= x)%Q \/ early x rest
      end
  end.

(** The states of [sw] are in the order of their time. *)
Fixpoint in_time_order (sw : list (point Q)) : Prop :=
  match sw with
  | [] => True
  | cur :: rest =>
      match rest with
      | [] => True
      | next :: _ =>
          (getTime (timestamp cur) <= getTime (timestamp next))%Q
          /\ in_time_order rest
      end
  end.

(** The time that the bucket from [bs] to [be] shares with the span from
    [a] to [b], zero if they are apart. *)
Definition overlap (bs be a b : Q) : Q :=
  Exact.Qmax 0 (Exact.Qmin b be - Exact.Qmax a bs).

(** ** The card: [setConfig]

    The card keeps its configuration in private fields and a timer in the
    window.  A method is a function of the card and the window that ends
    normally or throws, and gives the card and the window it leaves. *)

Module Card.
Import String.
Open Scope string_scope.

Inductive completion (A : Type) : Type :=
| Done (a : A)
| Throws (message : string).

Arguments Throws {A}.

Section Card.
(** [EntityConfig] and the options of the configuration that [setConfig]
    does not read are declared in [types.ts], which is not among the
    sources: they are parameters, with the object literal
    [{ entity: entityConf }]. *)
Variable EntityConfig : Type.
Variable entity_only : string -> EntityConfig.
Variable Options : Type.

(** An entry of [config.entities]: an entity id or an object. *)
Inductive entity_entry : Type :=
| EntityId (id : string)
| EntityObject (conf : EntityConfig).

(** What [config.entities] can be at run time. *)
Inductive entities_value : Type :=
| Absent
| NotAnArray (truthy : bool)
| Entries (l : list entity_entry).

Record BackgroundGraphEntitiesConfig : Type := {
  entities : entities_value;
  update_interval : option Q;
  options : Options
}.

(** The timers of the window: handle and delay in milliseconds. *)
Record Window : Type := {
  intervals : list (Z * Q);
  next_handle : Z
}.

Record card : Type := {
  _config : option BackgroundGraphEntitiesConfig;
  _entities : list EntityConfig;
  _history : list (string * list (@point Q Exact.number));
  _historyFetched : bool;
  _timerId : option Z
}.

Definition truthy (v : entities_value) : bool :=
  match v with
  | Absent => false
  | NotAnArray t => t
  | Entries _ => true
  end.

Definition isArray (v : entities_value) : bool :=
  match v with
  | Entries _ => true
  | _ => false
  end.

(** [!config || !config.entities || !Array.isArray(config.entities) || config.entities.length === 0] *)
Definition rejects (config : option BackgroundGraphEntitiesConfig) : bool :=
  match config with
  | None => true
  | Some cfg =>
      negb (truthy (entities cfg))
      || negb (isArray (entities cfg))
      || match entities cfg with
         | Entries l => (List.length l =? 0)%nat
         | _ => false
         end
  end.

(** [typeof entityConf === 'string' ? { entity: entityConf } : entityConf] *)
Definition normalise (entityConf : entity_entry) : EntityConfig :=
  match entityConf with
  | EntityId id => entity_only id
  | EntityObject conf => conf
  end.

Definition clearInterval (handle : Z) (w : Window) : Window :=
  {| intervals := filter (fun t => negb (fst t =? handle)%Z) (intervals w);
     next_handle := next_handle w |}.

Definition setInterval (delay : Q) (w : Window) : Z * Window :=
  (next_handle w,
   {| intervals := (next_handle w, delay) :: intervals w;
      next_handle := next_handle w + 1 |}).

Definition _setupUpdateInterval (c : card) (w : Window) : card * Window :=
  let w1 :=
    match _timerId c with
    | Some handle => if (handle =? 0)%Z then w else clearInterval handle w
    | None => w
    end in
  match _config c with
  | None => (c, w1)
  | Some cfg =>
      match update_interval cfg with
      | Some interval =>
          if Qeq_bool interval 0 then (c, w1)
          else
            let '(handle, w2) := setInterval (interval * inject_Z MS_IN_S) w1 in
            ({| _config := _config c; _entities := _entities c;
                _history := _history c; _historyFetched := _historyFetched c;
                _timerId := Some handle |}, w2)
      | None => (c, w1)
      end
  end.

(** Past the guard [config.entities] is an array; the other branch of the
    reading of [config.entities.map] below is never taken. *)
Definition setConfig (config : option BackgroundGraphEntitiesConfig)
    (c : card) (w : Window) : completion unit * (card * Window) :=
  if rejects config then
    (Throws "You need to define at least one entity", (c, w))
  else
    let c1 :=
      {| _config := config;
         _entities :=
           match config with
           | Some {| entities := Entries l |} => map normalise l
           | _ => []
           end;
         _history := [];
         _historyFetched := false;
         _timerId := _timerId c |} in
    (Done tt, _setupUpdateInterval c1 w).

(** [connectedCallback] and [disconnectedCallback]; the part of LitElement
    in them leaves the fields of the card and the timers alone. *)
Definition connectedCallback (c : card) (w : Window) : card * Window :=
  _setupUpdateInterval c w.

Definition disconnectedCallback (c : card) (w : Window) : card * Window :=
  match _timerId c with
  | Some handle =>
      if (handle =? 0)%Z then (c, w)
      else ({| _config := _config c; _entities := _entities c;
               _history := _history c; _historyFetched := _historyFetched c;
               _timerId := None |},
            clearInterval handle w)
  | None => (c, w)
  end.

(** The [length] of a value of [entities] that is no array, if it has one (a
    string has): a parameter. *)
Variable length_of_other : bool -> option nat.

(** [this._config?.entities.length ? this._config.entities.length + 1 : 1];
    [undefined.length] throws. *)
Definition getCardSize (c : card) : completion nat :=
  match _config c with
  | None => Done 1%nat
  | Some cfg =>
      match entities cfg with
      | Absent => Throws "TypeError"
      | NotAnArray t =>
          match length_of_other t with
          | Some (S n) => Done (S n + 1)%nat
          | _ => Done 1%nat
          end
      | Entries l =>
          match List.length l with
          | S n => Done (S n + 1)%nat
          | O => Done 1%nat
          end
      end
  end.

(** What the dashboard does to a card: it configures it, attaches it and
    detaches it.  An error of [setConfig] is caught by the caller. *)
Inductive call : Type :=
| SetConfig (config : option BackgroundGraphEntitiesConfig)
| ConnectedCallback
| DisconnectedCallback.

Definition perform (k : call) (state : card * Window) : card * Window :=
  match k with
  | SetConfig config => snd (setConfig config (fst state) (snd state))
  | ConnectedCallback => connectedCallback (fst state) (snd state)
  | DisconnectedCallback => disconnectedCallback (fst state) (snd state)
  end.

Definition perform_all (calls : list call) (state : card * Window) : card * Window :=
  fold_left (fun st k => perform k st) calls state.

(** A card as its constructor leaves it, before any configuration. *)
Definition fresh : card :=
  {| _config := None; _entities := []; _history := [];
     _historyFetched := false; _timerId := None |}.

(** The timers of a window that had the timers of [w0] before the card came:
    those, and at most one more, the one the card holds. *)
Definition timers_ok (w0 : Window) (state : card * Window) : Prop :=
  (next_handle w0 <= next_handle (snd state))%Z
  /\ (forall h, _timerId (fst state) = Some h ->
                (next_handle w0 <= h < next_handle (snd state))%Z)
  /\ (intervals (snd state) = intervals w0
      \/ exists h delay,
           _timerId (fst state) = Some h
           /\ intervals (snd state) = (h, delay) :: intervals w0).

(** The handles of a window are positive and below the next one. *)
Definition handles_ok (w : Window) : Prop :=
  (0 < next_handle w)%Z
  /\ forall t, In t (intervals w) -> (fst t < next_handle w)%Z.
End Card.
End Card.

(** A window without timers, and a configuration of one entity that asks
    for an update every so many seconds. *)
Definition no_timers : Card.Window := {| Card.intervals := []; Card.next_handle := 1 |}.

Definition polling (seconds : Q) : Card.BackgroundGraphEntitiesConfig unit unit :=
  {| Card.entities := Card.Entries [Card.EntityObject tt];
     Card.update_interval := Some seconds;
     Card.options := tt |}.

(** ** Colours: [_getDotColor], [_createGradient] and [_setupGradient]

    Numbers are exact rationals.  The choice of a colour rests on
    comparisons alone, which the doubles make as the rationals do.  The
    offsets of the stops of a gradient are quotients, which the doubles
    round and which are no numbers when the range of the thresholds
    overflows: nothing is stated about the offsets below, only about the
    colours of the stops.  [ColorThreshold] and the fields of the entity's and
    the card's configuration are those this file reads; [types.ts] declares
    them.  [hass.themes?.darkMode ?? false] is the flag [darkMode], and the
    scale [yScale] of d3 is a parameter. *)

Module Appearance.
Import String.
Open Scope string_scope.

(** [{ value: number; color: string }] *)
Record ColorThreshold : Type := { value : Q; color : string }.

Module Entity.
Record t : Type := {
  overwrite_graph_appearance : bool;
  color_thresholds : option (list ColorThreshold);
  line_color : option string;
  graph_min : option Q;
  graph_max : option Q
}.
End Entity.

Module Config.
Record t : Type := {
  color_thresholds : option (list ColorThreshold);
  line_color : option string;
  graph_min : option Q;
  graph_max : option Q
}.
End Config.

(** [entityConfig?.overwrite_graph_appearance] as a condition *)
Definition overrides (entityConfig : option Entity.t) : option Entity.t :=
  match entityConfig with
  | Some e => if Entity.overwrite_graph_appearance e then Some e else None
  | None => None
  end.

(** [[...thresholds].sort((a, b) => a.value - b.value)]: the sort of an
    array is stable, so a threshold goes before the first one that is not
    below it. *)
Fixpoint insert (t : ColorThreshold) (sorted : list ColorThreshold)
  : list ColorThreshold :=
  match sorted with
  | [] => [t]
  | u :: rest =>
      if Qle_bool (value t) (value u) then t :: sorted else u :: insert t rest
  end.

Definition sort (thresholds : list ColorThreshold) : list ColorThreshold :=
  fold_right insert [] thresholds.

Definition defaultColor (darkMode : bool) : string :=
  if darkMode then "white" else "black".

(** The loop over the sorted thresholds, with its [break]. *)
Fixpoint scan (v : Q) (color0 : string) (sortedThresholds : list ColorThreshold)
  : string :=
  match sortedThresholds with
  | [] => color0
  | threshold :: rest =>
      if Qle_bool (value threshold) v then scan v (color threshold) rest
      else color0
  end.

(** The thresholds and the line colour [_getDotColor] settles on. *)
Definition dot_thresholds (config : Config.t) (entityConfig : option Entity.t)
  : option (list ColorThreshold) :=
  match match overrides entityConfig with
        | Some e => Entity.color_thresholds e
        | None => None
        end with
  | Some thresholds => Some thresholds
  | None => Config.color_thresholds config
  end.

Definition dot_lineColor (config : Config.t) (entityConfig : option Entity.t)
  : option string :=
  match match overrides entityConfig with
        | Some e => Entity.line_color e
        | None => None
        end with
  | Some lineColor => Some lineColor
  | None => Config.line_color config
  end.

(** [sortedThresholds[0]] exists, the thresholds being not empty; the
    branch for an empty sorted list is never taken. *)
Definition _getDotColor (darkMode : bool) (config : Config.t)
    (v : Q) (entityConfig : option Entity.t) : string :=
  match dot_thresholds config entityConfig with
  | Some ((_ :: _) as thresholds) =>
      let sortedThresholds := sort thresholds in
      match sortedThresholds with
      | lowest :: _ => scan v (color lowest) sortedThresholds
      | [] => defaultColor darkMode
      end
  | _ =>
      match dot_lineColor config entityConfig with
      | Some lineColor => lineColor
      | None => defaultColor darkMode
      end
  end.

(** [extent] of d3-array on a list that is not empty: the least and the
    greatest value. *)
Definition extent (thresholds : list ColorThreshold) : option (Q * Q) :=
  match thresholds with
  | [] => None
  | t0 :: rest =>
      Some (fold_right (fun t m => Exact.Qmin (value t) m) (value t0) rest,
            fold_right (fun t m => Exact.Qmax (value t) m) (value t0) rest)
  end.

(** The gradient that [_createGradient] appends to the [defs] of the svg:
    its attributes and its stops, each an offset in percent and a colour. *)
Record linearGradient : Type := {
  id : string;
  x1 : Q;
  y1 : Q;
  x2 : Q;
  y2 : Q;
  stops : list (Q * string)
}.

Definition offset_percent (lo hi : Q) (threshold : ColorThreshold) : Q :=
  let range := (hi - lo)%Q in
  let offset :=
    if Exact.Qltb 0 range then ((value threshold - lo) / range)%Q else 0%Q in
  (Exact.Qmax 0 (Exact.Qmin 1 offset) * 100)%Q.

(** The gradient and the returned [url(#...)]; nothing for an empty list,
    whose extent is not a pair of numbers. *)
Definition _createGradient (yScale : Q -> Q) (gradientId : string)
    (thresholds : list ColorThreshold) : option (linearGradient * string) :=
  match extent thresholds with
  | None => None
  | Some (lo, hi) =>
      Some ({| id := gradientId;
               x1 := 0; y1 := yScale lo; x2 := 0; y2 := yScale hi;
               stops := map (fun t => (offset_percent lo hi t, color t))
                            (sort thresholds) |},
            "url(#" ++ gradientId ++ ")")
  end.

Definition plain (c : string) : option (option linearGradient * string) :=
  Some (None, c).

Definition gradient (g : option (linearGradient * string))
  : option (option linearGradient * string) :=
  match g with
  | Some (grad, url) => Some (Some grad, url)
  | None => None
  end.

(** The gradient appended, if any, and the stroke returned. *)
Definition _setupGradient (darkMode : bool) (config : Config.t)
    (yScale : Q -> Q) (gradientId : string) (entityConfig : option Entity.t)
  : option (option linearGradient * string) :=
  match overrides entityConfig with
  | Some e =>
      match Entity.color_thresholds e with
      | Some ((_ :: _) as entityThresholds) =>
          gradient (_createGradient yScale gradientId entityThresholds)
      | _ =>
          plain (match Entity.line_color e with
                 | Some c => c
                 | None => match Config.line_color config with
                           | Some c => c
                           | None => defaultColor darkMode
                           end
                 end)
      end
  | None =>
      match Config.color_thresholds config with
      | Some ((_ :: _) as globalThresholds) =>
          gradient (_createGradient yScale gradientId globalThresholds)
      | _ =>
          plain (match Config.line_color config with
                 | Some c => c
                 | None => defaultColor darkMode
                 end)
      end
  end.

(** Configurations to try the colours on. *)
Definition traffic_lights : list ColorThreshold :=
  [ {| value := 30; color := "red" |};
    {| value := 0; color := "blue" |};
    {| value := 20; color := "green" |} ].

Definition card_look (thresholds : option (list ColorThreshold))
    (lineColor : option string) : Config.t :=
  {| Config.color_thresholds := thresholds;
     Config.line_color := lineColor;
     Config.graph_min := None;
     Config.graph_max := None |}.

Definition entity_look (overwrite : bool) (thresholds : option (list ColorThreshold))
    (lineColor : option string) : Entity.t :=
  {| Entity.overwrite_graph_appearance := overwrite;
     Entity.color_thresholds := thresholds;
     Entity.line_color := lineColor;
     Entity.graph_min := None;
     Entity.graph_max := None |}.
End Appearance.

(** ** [_renderD3Graph], up to its scales

    What d3 draws is left out: the method is followed until it has the
    domain of the vertical axis.  Numbers are exact rationals; the doubles
    round the padding of the domain, and nothing is stated about it below:
    the retries do not depend on it.  The map
    [_renderRetryMap] is read through [get(container) || 0], which does not
    tell a missing container from one at 0, so it is a function from
    containers to counts, and [delete] sets 0. *)

Module Graph.
Definition Y_AXIS_PADDING_FACTOR : Q := 1 # 10.
Definition MAX_RETRIES : nat := 10.

(** The container as the method finds it:
    [!container.isConnected || container.clientWidth === 0 || container.clientHeight === 0]
    is [negb ready]. *)
Definition RetryMap : Type := nat -> nat.

Definition set (m : RetryMap) (container count : nat) : RetryMap :=
  fun c => if (c =? container)%nat then count else m c.

(** [graphMin] and [graphMax]: the entity's, if it overrides and has one,
    else the card's. *)
Definition graphMin (config : Appearance.Config.t)
    (entityConfig : option Appearance.Entity.t) : option Q :=
  match Appearance.overrides entityConfig with
  | Some e =>
      match Appearance.Entity.graph_min e with
      | Some m => Some m
      | None => Appearance.Config.graph_min config
      end
  | None => Appearance.Config.graph_min config
  end.

Definition graphMax (config : Appearance.Config.t)
    (entityConfig : option Appearance.Entity.t) : option Q :=
  match Appearance.overrides entityConfig with
  | Some e =>
      match Appearance.Entity.graph_max e with
      | Some m => Some m
      | None => Appearance.Config.graph_max config
      end
  | None => Appearance.Config.graph_max config
  end.

(** The domain of the vertical axis for [processedHistory]. *)
Definition yDomain (config : Appearance.Config.t)
    (entityConfig : option Appearance.Entity.t)
    (processedHistory : list (point Q)) : Q * Q :=
  let yDomain0 := lowest processedHistory in
  let yDomain1 := highest processedHistory in
  let yDomain0 :=
    match graphMin config entityConfig with Some m => m | None => yDomain0 end in
  let yDomain1 :=
    match graphMax config entityConfig with Some m => m | None => yDomain1 end in
  let '(yDomain0, yDomain1) :=
    if Qeq_bool yDomain0 yDomain1 then ((yDomain0 - 1)%Q, (yDomain1 + 1)%Q)
    else (yDomain0, yDomain1) in
  let yPadding := ((yDomain1 - yDomain0) * Y_AXIS_PADDING_FACTOR)%Q in
  (match graphMin config entityConfig with
   | Some _ => yDomain0
   | None => (yDomain0 - yPadding)%Q
   end,
   match graphMax config entityConfig with
   | Some _ => yDomain1
   | None => (yDomain1 + yPadding)%Q
   end).

(** How a call of the method ends. *)
Inductive rendering : Type :=
| Postponed (frameRequested : bool)
| Emptied
| Drawn (processedHistory : list (point Q)) (domain : Q * Q).

(** [_renderD3Graph]: [ready] is the state of the container, [end_] the
    clock.  A history that is not empty gets the point at [end_], so
    [processedHistory] has two points or more. *)
Definition _renderD3Graph (config : Appearance.Config.t)
    (retries : RetryMap) (ready : bool) (end_ : Date (R := Q))
    (container : nat) (history : option (list (point Q)))
    (entityConfig : option Appearance.Entity.t) : RetryMap * rendering :=
  let retryCount := retries container in
  if negb ready then
    if (retryCount <? MAX_RETRIES)%nat then
      (set retries container (retryCount + 1), Postponed true)
    else (retries, Postponed false)
  else
    let retries := set retries container 0 in
    match history with
    | None => (retries, Emptied)
    | Some [] => (retries, Emptied)
    | Some ((_ :: _) as history) =>
        let processedHistory := statesWithEndpoints end_ history in
        if (List.length processedHistory <? 2)%nat then (retries, Emptied)
        else (retries, Drawn processedHistory (yDomain config entityConfig processedHistory))
    end.

(** The method called [n] times on a container that is not ready: the
    counts it leaves and the frames it has requested. *)
Fixpoint attempts (config : Appearance.Config.t) (n : nat) (retries : RetryMap)
    (end_ : Date (R := Q)) (container : nat) (history : option (list (point Q)))
    (entityConfig : option Appearance.Entity.t) : RetryMap * nat :=
  match n with
  | O => (retries, O)
  | S n' =>
      let '(retries', r) :=
        _renderD3Graph config retries false end_ container history entityConfig in
      let '(retries'', frames) :=
        attempts config n' retries' end_ container history entityConfig in
      (retries'', match r with Postponed true => S frames | _ => frames end)
  end.
End Graph.

(** ** The history: [_fetchHistory], [_fetchAndStoreAllHistory] and
    [_renderAllGraphs]

    A [Map] with string keys is the list of its entries in the order of
    their insertion.  [set] on a key that is there replaces the value where
    it stands. *)

Module History.
Section Default.
Context {R : Type} {num : Number R}.

(** [x || d] for a number that may be missing: zero and NaN count as
    false. *)
Definition or_default (x : option R) (d : Z) : R :=
  match x with
  | Some x => if ltb x zero || ltb zero x then x else of_Z d
  | None => of_Z d
  end.
End Default.

Import String.
Local Open Scope string_scope.
Local Abbreviation string := String.string.

Definition DEFAULT_HOURS_TO_SHOW : Z := 24.
Definition DEFAULT_POINTS_PER_HOUR : Z := 1.

Section Map.
Variable V : Type.

Definition Map : Type := list (string * V).

Fixpoint get (m : Map) (key : string) : option V :=
  match m with
  | [] => None
  | (k, v) :: rest => if k =? key then Some v else get rest key
  end.

Fixpoint set (m : Map) (key : string) (v : V) : Map :=
  match m with
  | [] => [(key, v)]
  | (k, v') :: rest =>
      if k =? key then (k, v) :: rest else (k, v') :: set rest key v
  end.
End Map.

(** The two fields of a row that the methods here read. *)
Record EntityConfig : Type := {
  entity : string;
  graph_entity : option string
}.

(** A string in a condition: the empty one counts as false. *)
Definition truthy (s : string) : bool := negb (s =? "").

(** [entityConf.graph_entity || entityId] *)
Definition graphEntityId (entityConf : EntityConfig) (entityId : string) : string :=
  match graph_entity entityConf with
  | Some g => if truthy g then g else entityId
  | None => entityId
  end.

Section Fetch.
Context {R : Type} {num : Number R}.

(** [Number(s)] and [isNaN] of the language. *)
Variable toNumber : string -> R.
Variable isNaN : R -> bool.

(** A state of the reply: the state [s] and the time [lu] of its last
    update, in seconds. *)
Record State : Type := { s : string; lu : R }.

(** The message of the call: [start_time] and [end_time] are the dates as
    [toISOString] writes them. *)
Record request : Type := {
  start_time : string;
  end_time : string;
  entity_ids : list string
}.

(** What the call to the server gives: the promise rejects, or resolves to
    an object from entity ids to their states. *)
Inductive reply : Type :=
| Rejects
| Resolves (history : string -> option (list State)).

(** [start.toISOString()] for the [start] that [setHours] leaves,
    [hoursToShow] hours before the clock in local time: [None] where that
    is no date and [toISOString] throws.  The calendar of the engine is not
    part of the embedding. *)
Variable start_toISOString : R -> option string.

(** [new Date().toISOString()] *)
Variable now_toISOString : string.

Definition numeric (state : State) : R :=
  if s state =? "on" then of_Z 1
  else if s state =? "off" then of_Z 0
  else toNumber (s state).

Definition finalStates (states : list State) : list (point R) :=
  filter (fun p => negb (isNaN (value p)))
    (map (fun st => Point (new_Date (mul (lu st) (of_Z MS_IN_S))) (numeric st)) states).

(** [_fetchHistory]: [callWS] is [this.hass?.callWS]; [hours_to_show] and
    [points_per_hour] are the fields of [this._config]; [endpoint] and
    [now] are the clock as [_downsampleHistory] reads it.  [None] is
    [null]: what the method returns without [callWS], and from its [catch],
    which a rejected call and a throw of [toISOString] reach. *)
Definition _fetchHistory (callWS : option (request -> reply))
    (hours_to_show points_per_hour : option R) (endpoint now : Date)
    (entityId : string) : outcome (option (list (point R))) :=
  match callWS with
  | None => Returns None
  | Some callWS =>
      let hoursToShow := or_default hours_to_show DEFAULT_HOURS_TO_SHOW in
      let pointsPerHour := or_default points_per_hour DEFAULT_POINTS_PER_HOUR in
      match start_toISOString hoursToShow with
      | None => Returns None
      | Some start =>
          match callWS {| start_time := start;
                          end_time := now_toISOString;
                          entity_ids := [entityId] |} with
          | Rejects => Returns None
          | Resolves history =>
              match history entityId with
              | None => Returns (Some [])
              | Some states =>
                  r <- _downsampleHistory endpoint now (finalStates states)
                         hoursToShow pointsPerHour ;;
                  Returns (Some r)
              end
          end
      end
  end.
End Fetch.

Section Store.
(** The histories, whatever they are. *)
Variable H : Type.

(** [_fetchAndStoreAllHistory]: [completed] are the fetches in the order in
    which they complete, each the row with what [_fetchHistory] gave for it
    ([None] is [null]); [_entities] and [_history] are the fields of the
    card.  The result is the new [_history]. *)
Definition _fetchAndStoreAllHistory (_entities : list EntityConfig)
    (completed : list (EntityConfig * option H)) (_history : Map H) : Map H :=
  if (List.length _entities =? 0)%nat then
    if (0 <? List.length _history)%nat then [] else _history
  else
    let newHistory :=
      fold_left
        (fun newHistory '(entityConf, history) =>
           set newHistory (graphEntityId entityConf (entity entityConf)) history)
        completed [] in
    flat_map
      (fun '(key, v) => match v with Some h => [(key, h)] | None => [] end)
      newHistory.

(** A call of [_renderD3Graph], with the id of its container. *)
Inductive drawing : Type :=
| Draw (container : string) (history : option H) (entityConfig : EntityConfig).

(** [render] gives every row one container, with the row's [entity] as its
    [data-entity-id]. *)
Definition containers (_entities : list EntityConfig) : list string :=
  map entity _entities.

(** The loop of [_renderAllGraphs] over the containers: the calls it makes,
    or [None] if [find] has no row for a container and the method throws. *)
Fixpoint forEach (_entities : list EntityConfig) (_history : Map H)
    (containers : list string) : option (list drawing) :=
  match containers with
  | [] => Some []
  | entityId :: rest =>
      if truthy entityId then
        match find (fun e => entity e =? entityId) _entities with
        | None => None
        | Some entityConfig =>
            let history := get _history (graphEntityId entityConfig entityId) in
            option_map (cons (Draw entityId history entityConfig))
              (forEach _entities _history rest)
        end
      else forEach _entities _history rest
  end.

(** [_renderAllGraphs]: [isConnected] is the card's, [configured] is
    [this._config?.entities] in its condition. *)
Definition _renderAllGraphs (isConnected configured : bool)
    (_entities : list EntityConfig) (_history : Map H)
    (containers : list string) : option (list drawing) :=
  if negb isConnected then Some []
  else if negb configured then Some []
  else forEach _entities _history containers.
End Store.
End History.

(** The list a call returns, [[]] if it does not return. *)
Definition run {A : Type} (o : outcome (list A)) : list A :=
  match o with Returns r => r | _ => [] end.

(** ** The scenarios of the test suite

    The clock is frozen at 2023-01-01T12:00:00Z; [utc h m s] is that time of
    that day, in milliseconds since the epoch. *)

Module Scenario.
Definition mockNow : Z := 1672574400000.
Definition utc (h m s : Z) : Z := 1672531200000 + ((h * 60 + m) * 60 + s) * 1000.

Section Scenario.
Context {R : Type} {num : Number R}.

Definition now : Date := new_Date (of_Z mockNow).

(** 'should return raw states if pointsPerHour is 0 or less' *)
Definition rawStates : list (point R) :=
  [at_ (utc 11 0 0) 10; at_ (utc 11 30 0) 20].

(** 'should correctly calculate time-weighted average for buckets' *)
Definition weighted : list (point R) :=
  [at_ (utc 10 0 0) 5; at_ (utc 10 15 0) 10; at_ (utc 10 45 0) 20;
   at_ (utc 11 15 0) 30; at_ (utc 11 45 0) 40].

(** 'should correctly weight a short spike in a bucket' *)
Definition spike : list (point R) :=
  [at_ (utc 10 0 0) 5; at_ (utc 10 0 0) 10; at_ (utc 10 29 0) 1000].

(** States stamped by a clock that is ahead of the card's: after the first
    one, they lie after [now]. *)
Definition ahead : list (point R) :=
  [at_ (utc 9 0 0) 5; at_ (utc 12 10 0) 7; at_ (utc 12 20 0) 9].


(** A value that changes in the last minute of the window. *)
Definition late_change : list (point R) :=
  [at_ (utc 11 0 0) 5; at_ (utc 11 59 0) 100].

End Scenario.




(** Three hours at a point every two hours: two buckets, the second one
    from 11:00 to 13:00. *)
Definition ahead_result : list (point Q) :=
  Eval vm_compute in
    run (_downsampleHistory (num := Exact.number) now now ahead
           (of_Z 3) (1 # 2)%Q).


(** The two test scenarios in exact arithmetic. *)
Definition weighted_exact : list (point Q) :=
  Eval vm_compute in
    run (_downsampleHistory (num := Exact.number) now now weighted
           (of_Z 2) (of_Z 2)).

Definition spike_exact : list (point Q) :=
  Eval vm_compute in
    run (_downsampleHistory (num := Exact.number) now now spike
           (of_Z 2) (of_Z 2)).

(** What one hour at 47 points per hour makes of [late_change] in double
    arithmetic. *)
Definition late_result : list (point float) :=
  Eval vm_compute in
    run (_downsampleHistory (num := Double.number) now now late_change
           (of_Z 1) (of_Z 47)).


End Scenario.

Definition pointD (t v : float) : point float := @Point float Double.number t v.
Definition pointQ (t : Z) (v : Q) : point Q := @Point Q Exact.number t v.

(** * Properties *)

(** ** The two scenarios, in both arithmetics *)

(** C1: with the clock at 12:00:00Z, 2 hours and 2 points per hour, the
    states 5 at 10:00, 10 at 10:15, 20 at 10:45, 30 at 11:15 and 40 at 11:45
    give the anchor (10:00, 5) and the buckets (10:30, 7.5), (11:00, 15),
    (11:30, 25), (12:00, 35), the time-weighted means: in double arithmetic
    to the last bit, and in exact arithmetic. *)
Theorem weighted_average_scenario :
  _downsampleHistory (num := Double.number) Scenario.now Scenario.now
    Scenario.weighted (of_Z 2) (of_Z 2)
  = Returns [pointD 1672567200000 5; pointD 1672569000000 7.5;
             pointD 1672570800000 15; pointD 1672572600000 25;
             pointD 1672574400000 35]
  /\ exists r,
      _downsampleHistory (num := Exact.number) Scenario.now Scenario.now
        Scenario.weighted (of_Z 2) (of_Z 2) = Returns r
      /\ map (fun p => (timestamp p, Qred (value p))) r
         = [(Scenario.utc 10 0 0, 5); (Scenario.utc 10 30 0, 15 # 2);
            (Scenario.utc 11 0 0, 15); (Scenario.utc 11 30 0, 25);
            (Scenario.utc 12 0 0, 35)]%Q.
Proof.
  split; [reflexivity|].
  exists Scenario.weighted_exact. split; reflexivity.
Qed.

(** C5: with the same clock and buckets, the states 5 at the window start,
    10 at 10:00:00 and 1000 at 10:29:00 give (10 * 29 + 1000 * 1) / 30 = 43
    in the first bucket and 1000 in every later one. *)
Theorem spike_scenario :
  _downsampleHistory (num := Double.number) Scenario.now Scenario.now
    Scenario.spike (of_Z 2) (of_Z 2)
  = Returns [pointD 1672567200000 5; pointD 1672569000000 43;
             pointD 1672570800000 1000; pointD 1672572600000 1000;
             pointD 1672574400000 1000]
  /\ exists r,
      _downsampleHistory (num := Exact.number) Scenario.now Scenario.now
        Scenario.spike (of_Z 2) (of_Z 2) = Returns r
      /\ map (fun p => (timestamp p, Qred (value p))) r
         = [(Scenario.utc 10 0 0, 5); (Scenario.utc 10 30 0, 43);
            (Scenario.utc 11 0 0, 1000); (Scenario.utc 11 30 0, 1000);
            (Scenario.utc 12 0 0, 1000)]%Q.
Proof.
  split; [reflexivity|].
  exists Scenario.spike_exact. split; reflexivity.
Qed.

(** ** What holds in every arithmetic *)

Section Generic.
Context {R : Type} {num : Number R}.

Lemma bind_returns {A B : Type} (m : outcome A) (k : A -> outcome B) (b : B) :
  bind m k = Returns b -> exists a, m = Returns a /\ k a = Returns b.
Proof.
  destruct m as [a| |]; simpl; intros E; try discriminate.
  exists a. split; [reflexivity | exact E].
Qed.


Lemma pop_app (xs : list (point R)) (x : point R) : pop (xs ++ [x]) = Some x.
Proof.
  induction xs as [|y ys IH]; [reflexivity|].
  simpl. destruct (ys ++ [x]) eqn:E; [now destruct ys|]. exact IH.
Qed.

Section Loop.
Variables (states sw : list (point R)) (start : Date) (interval : R).

Local Abbreviation loop := (buckets states sw start interval).

(** The loop only appends to [downsampled]. *)
Lemma buckets_app n : forall i lastValue downsampled,
  loop n i lastValue downsampled
  = l <- loop n i lastValue [] ;; Returns (downsampled ++ l).
Proof.
  induction n as [|n IH]; intros i lastValue downsampled; simpl.
  - now rewrite app_nil_r.
  - destruct (sums sw start interval i) as [ws tot].
    destruct (ltb zero tot).
    + destruct (divide ws tot) as [v| |]; simpl; trivial.
      rewrite IH. rewrite (IH _ _ [_]).
      destruct (loop n (S i) _ []); simpl; trivial.
      now rewrite <- app_assoc.
    + rewrite IH. rewrite (IH _ _ [_]).
      destruct (loop n (S i) _ []); simpl; trivial.
      now rewrite <- app_assoc.
Qed.

(** One round of the loop, read from the front of its result. *)
Lemma buckets_step n i lastValue l :
  loop (S n) i lastValue [] = Returns l ->
  exists v rest,
    l = Point (bucketTimestamp start interval i) v :: rest
    /\ (if ltb zero (snd (sums sw start interval i))
        then divide (fst (sums sw start interval i))
                    (snd (sums sw start interval i)) = Returns v
             /\ loop n (S i)
                  (carried states (bucketEndTime start interval i) lastValue) []
                = Returns rest
        else v = lastValue /\ loop n (S i) lastValue [] = Returns rest).
Proof.
  simpl. destruct (sums sw start interval i) as [ws tot]; simpl.
  destruct (ltb zero tot).
  - intros E. apply bind_returns in E as (v & Ev & E).
    rewrite buckets_app in E. apply bind_returns in E as (rest & Er & E).
    injection E as <-. exists v, rest. auto.
  - intros E. rewrite buckets_app in E. apply bind_returns in E as (rest & Er & E).
    injection E as <-. exists lastValue, rest. auto.
Qed.

Lemma buckets_length n : forall i lastValue l,
  loop n i lastValue [] = Returns l -> List.length l = n.
Proof.
  induction n as [|n IH]; intros i lastValue l E.
  - simpl in E. injection E as <-. reflexivity.
  - apply buckets_step in E as (v & rest & -> & E). simpl. f_equal.
    destruct (ltb zero _); destruct E as [_ E]; eapply IH; exact E.
Qed.

(** The timestamps of the buckets are the ends of the intervals, one per
    round. *)
Lemma buckets_timestamps n : forall i lastValue l,
  loop n i lastValue [] = Returns l ->
  map timestamp l = map (bucketTimestamp start interval) (seq i n).
Proof.
  induction n as [|n IH]; intros i lastValue l E.
  - simpl in E. injection E as <-. reflexivity.
  - apply buckets_step in E as (v & rest & -> & E). simpl. f_equal.
    destruct (ltb zero _); destruct E as [_ E]; eapply IH; exact E.
Qed.

(** A bucket without a positive total duration takes [lastValue] as the
    rounds before it left it. *)
Lemma buckets_carry lastValue0 n : forall i l,
  loop n i (lastValue_before states sw start interval lastValue0 i) [] = Returns l ->
  forall j p, (j < n)%nat -> nth_error l j = Some p ->
    ltb zero (snd (sums sw start interval (i + j))) = false ->
    value p = lastValue_before states sw start interval lastValue0 (i + j).
Proof.
  induction n as [|n IH]; intros i l E j p Hj Hp Hz; [lia|].
  apply buckets_step in E as (v & rest & -> & E).
  destruct j as [|j].
  - rewrite Nat.add_0_r in *. simpl in Hp. injection Hp as <-.
    rewrite Hz in E. now destruct E.
  - simpl in Hp. replace (i + S j)%nat with (S i + j)%nat in * by lia.
    apply (IH (S i) rest); try assumption; try lia.
    simpl. destruct (ltb zero _); now destruct E.
Qed.

(** Where no bucket so far had a positive total duration, [lastValue] is
    still the value the loop was entered with. *)
Lemma lastValue_before_untouched lastValue0 i :
  (forall j, (j < i)%nat -> ltb zero (snd (sums sw start interval j)) = false) ->
  lastValue_before states sw start interval lastValue0 i = lastValue0.
Proof.
  induction i as [|i IH]; intros H; simpl; [reflexivity|].
  rewrite H by lia. apply IH. intros j Hj. apply H. lia.
Qed.
End Loop.

(** The guard of the method. *)
Lemma guard_returns endpoint now (states : list (point R)) hours pointsPerHour :
  leb pointsPerHour zero = true \/ states = [] ->
  _downsampleHistory endpoint now states hours pointsPerHour = Returns states.
Proof.
  intros [H | ->]; unfold _downsampleHistory.
  - now rewrite H.
  - now rewrite orb_true_r.
Qed.

(** The method past its guard. *)
Lemma downsample_returns endpoint now (states : list (point R)) hours pointsPerHour r :
  leb pointsPerHour zero = false -> states <> [] ->
  _downsampleHistory endpoint now states hours pointsPerHour = Returns r ->
  exists interval ratio n l,
    divide (of_Z MS_IN_H) pointsPerHour = Returns interval
    /\ divide (sub (getTime now) (getTime (startTime now hours))) interval = Returns ratio
    /\ iterations (Math_ceil ratio) = Some n
    /\ buckets states (statesWithEndpoints endpoint states) (startTime now hours)
         interval n 0 (firstValue states) [] = Returns l
    /\ r = Point (startTime now hours) (firstValue states) :: l.
Proof.
  intros Hp Hs. unfold _downsampleHistory. rewrite Hp.
  destruct states as [|s0 states']; [congruence|]. simpl orb. cbv iota.
  intros E. apply bind_returns in E as (interval & Ei & E).
  apply bind_returns in E as (ratio & Er & E).
  destruct (iterations (Math_ceil ratio)) as [n|] eqn:En; [|discriminate].
  apply bind_returns in E as (l & El & E). injection E as <-.
  exists interval, ratio, n, l. auto.
Qed.

Lemma downsample_unfold endpoint now (states : list (point R)) hours pointsPerHour :
  leb pointsPerHour zero = false -> states <> [] ->
  _downsampleHistory endpoint now states hours pointsPerHour
  = (interval <- divide (of_Z MS_IN_H) pointsPerHour ;;
     ratio <- divide (sub (getTime now) (getTime (startTime now hours))) interval ;;
     match iterations (Math_ceil ratio) with
     | None => RunsForever
     | Some n =>
         l <- buckets states (statesWithEndpoints endpoint states)
                (startTime now hours) interval n 0 (firstValue states) [] ;;
         Returns (Point (startTime now hours) (firstValue states) :: l)
     end).
Proof.
  intros Hp Hs. unfold _downsampleHistory. rewrite Hp.
  destruct states as [|s0 states']; [congruence|]. reflexivity.
Qed.
End Generic.

(** ** The order of the doubles *)

Unset Implicit Arguments.

Lemma SFcompare_place (x y : spec_float) :
  match SFcompare x y with
  | Some Lt => sf_not_nan x /\ sf_not_nan y /\ lower (place x) (place y)
  | Some Eq => sf_not_nan x /\ sf_not_nan y /\ place x = place y
  | Some Gt => sf_not_nan x /\ sf_not_nan y /\ lower (place y) (place x)
  | None => ~ sf_not_nan x \/ ~ sf_not_nan y
  end.
Proof.
  unfold sf_not_nan.
  destruct x as [sx|sx| |sx mx ex], y as [sy|sy| |sy my ey];
    try destruct sx; try destruct sy; cbn;
    try (repeat split; (congruence || lia));
    try (left; congruence); try (right; congruence).
  all: destruct (Z.compare_spec ex ey) as [E|E|E]; cbn;
       try (repeat split; (congruence || lia)).
  all: rewrite Pos.compare_cont_spec; cbn;
       destruct (Pos.compare_spec mx my) as [M|M|M]; cbn;
       repeat split; try congruence; try lia.
  all: subst; reflexivity.
Qed.

Lemma ltb_rank (x y : float) :
  PrimFloat.ltb x y = true <-> not_nan x /\ not_nan y /\ lower (rank x) (rank y).
Proof.
  rewrite FloatAxioms.ltb_spec. unfold SFltb, not_nan, rank.
  pose proof (SFcompare_place (Prim2SF x) (Prim2SF y)) as H.
  destruct (SFcompare (Prim2SF x) (Prim2SF y)) as [[| |]|].
  - split; [discriminate|]. intros (_ & _ & Hb). destruct H as (_ & _ & E).
    rewrite E in Hb. destruct (place (Prim2SF y)) as [[a b] c]. cbn in Hb. lia.
  - split; [intros _; exact H | reflexivity].
  - split; [discriminate|]. intros (_ & _ & Hb). destruct H as (_ & _ & Hb').
    destruct (place (Prim2SF y)) as [[a b] c], (place (Prim2SF x)) as [[a' b'] c'].
    cbn in *. lia.
  - split; [discriminate|]. intros (Hx & Hy & _). tauto.
Qed.

Lemma leb_rank (x y : float) :
  PrimFloat.leb x y = true
  <-> not_nan x /\ not_nan y /\ (lower (rank x) (rank y) \/ rank x = rank y).
Proof.
  rewrite FloatAxioms.leb_spec. unfold SFleb, not_nan, rank.
  pose proof (SFcompare_place (Prim2SF x) (Prim2SF y)) as H.
  destruct (SFcompare (Prim2SF x) (Prim2SF y)) as [[| |]|].
  - split; [intros _|reflexivity]. destruct H as (Hx & Hy & E). auto.
  - split; [intros _|reflexivity]. destruct H as (Hx & Hy & E). auto.
  - split; [discriminate|]. intros (_ & _ & Hb). destruct H as (_ & _ & Hb').
    destruct (place (Prim2SF y)) as [[a b] c], (place (Prim2SF x)) as [[a' b'] c'].
    cbn in *. destruct Hb as [Hb | Hb]; [lia|]. inversion Hb; subst. lia.
  - split; [discriminate|]. intros (Hx & Hy & _). tauto.
Qed.

Lemma is_nan_number (x : float) : PrimFloat.is_nan x = false <-> not_nan x.
Proof.
  unfold PrimFloat.is_nan, not_nan. rewrite FloatAxioms.eqb_spec. unfold SFeqb.
  pose proof (SFcompare_place (Prim2SF x) (Prim2SF x)) as H.
  destruct (SFcompare (Prim2SF x) (Prim2SF x)) as [[| |]|]; cbn.
  - split; [intros _; apply H | reflexivity].
  - split; [discriminate|]. intros _. destruct H as (_ & _ & Hb).
    destruct (place (Prim2SF x)) as [[a b] c]. cbn in Hb. lia.
  - split; [discriminate|]. intros _. destruct H as (_ & _ & Hb).
    destruct (place (Prim2SF x)) as [[a b] c]. cbn in Hb. lia.
  - split; [discriminate|]. tauto.
Qed.






(** ** Whole numbers as doubles *)

Section Whole.
Open Scope Z_scope.

Lemma digits_pos c : 1 <= digits c.
Proof. unfold digits. lia. Qed.

Lemma digits_bounds c : 2 ^ (digits c - 1) <= Zpos c < 2 ^ digits c.
Proof.
  unfold digits. induction c as [c IH|c IH|]; cbn [digits2_pos].
  - rewrite Pos2Z.inj_succ.
    replace (Z.succ (Zpos (digits2_pos c)) - 1) with (Z.succ (Zpos (digits2_pos c) - 1)) by lia.
    rewrite !Z.pow_succ_r by lia. lia.
  - rewrite Pos2Z.inj_succ.
    replace (Z.succ (Zpos (digits2_pos c)) - 1) with (Z.succ (Zpos (digits2_pos c) - 1)) by lia.
    rewrite !Z.pow_succ_r by lia. lia.
  - cbn. lia.
Qed.

Lemma digits_unique c d : 2 ^ (d - 1) <= Zpos c < 2 ^ d -> digits c = d.
Proof.
  intros [L U]. pose proof (digits_bounds c) as [L' U']. pose proof (digits_pos c).
  assert (Hd : 1 <= d).
  { destruct (Z_lt_le_dec d 1) as [H'|]; trivial.
    assert (2 ^ d <= 2 ^ 0) by (destruct (Z_lt_le_dec d 0);
      [rewrite Z.pow_neg_r by lia; cbn; lia | apply Z.pow_le_mono_r; lia]).
    cbn in *. lia. }
  destruct (Z.lt_trichotomy (digits c) d) as [H1|[H1|H1]]; trivial; exfalso.
  - assert (2 ^ digits c <= 2 ^ (d - 1)) by (apply Z.pow_le_mono_r; lia). lia.
  - assert (2 ^ d <= 2 ^ (digits c - 1)) by (apply Z.pow_le_mono_r; lia). lia.
Qed.

Lemma scale_value c k : 0 <= k -> Zpos (scale c k) = Zpos c * 2 ^ k.
Proof.
  destruct k as [|p|p]; cbn [scale]; intros H; [cbn; lia| |lia].
  induction p as [|p IH] using Pos.peano_ind.
  - cbn. lia.
  - rewrite Pos.iter_succ, Pos2Z.inj_xO, (IH ltac:(lia)), Pos2Z.inj_succ, Z.pow_succ_r by lia.
    lia.
Qed.

Lemma scale_digits c k : 0 <= k -> digits (scale c k) = digits c + k.
Proof.
  intros H. apply digits_unique. rewrite scale_value by trivial.
  pose proof (digits_bounds c) as [L U]. pose proof (digits_pos c).
  replace (digits c + k - 1) with ((digits c - 1) + k) by lia.
  rewrite !Z.pow_add_r by lia.
  assert (0 < 2 ^ k) by (apply Z.pow_pos_nonneg; lia). nia.
Qed.

Lemma scale_inj c k m : 0 <= k -> Zpos m = Zpos c * 2 ^ k -> m = scale c k.
Proof. intros H E. rewrite <- scale_value in E by trivial. congruence. Qed.

Lemma scale_scale c j k : 0 <= j -> 0 <= k -> scale (scale c j) k = scale c (j + k).
Proof.
  intros Hj Hk. apply Pos2Z.inj. rewrite !scale_value by lia.
  rewrite Z.pow_add_r by lia. lia.
Qed.

(** Shifting a mantissa that ends in [p] zeros to the right by [p] places
    loses nothing. *)
Lemma shr_scale (p : positive) : forall c,
  iter_pos shr_1 p {| shr_m := Zpos (Pos.iter xO c p); shr_r := false; shr_s := false |}
  = {| shr_m := Zpos c; shr_r := false; shr_s := false |}.
Proof.
  induction p as [p IH|p IH|]; intros c; cbn [iter_pos Pos.iter].
  - cbn [shr_1 orb]. now rewrite !IH.
  - now rewrite !IH.
  - reflexivity.
Qed.

(** A mantissa [c * 2^j] at exponent [-j], a whole number lower 2^53, is
    rounded to itself. *)
Lemma binary_round_whole (s : bool) (m c : positive) (j : Z) :
  0 <= j -> Zpos m = Zpos c * 2 ^ j -> digits c <= 53 ->
  binary_round FloatOps.prec FloatOps.emax s m (- j)
  = S754_finite s (scale c (53 - digits c)) (digits c - 53).
Proof.
  intros Hj Hm Hd. apply scale_inj in Hm; trivial. subst m.
  pose proof (digits_pos c) as Hd1.
  unfold binary_round.
  assert (Ef : forall e, -1000 <= e -> fexp FloatOps.prec FloatOps.emax e = e - 53).
  { intros e He. unfold fexp, SpecFloat.emin, FloatOps.prec, FloatOps.emax. lia. }
  change (Zpos (digits2_pos (scale c j))) with (digits (scale c j)).
  rewrite scale_digits by trivial.
  rewrite Ef by lia.
  replace (digits c + j + - j - 53) with (digits c - 53) by lia.
  unfold shl_align.
  destruct (digits c - 53 - - j) as [|n|n] eqn:En.
  - (* already 53 digits *)
    unfold binary_round_aux, shr_fexp. cbn [Zdigits2 shr_record_of_loc].
    change (Zpos (digits2_pos (scale c j))) with (digits (scale c j)).
    rewrite scale_digits by trivial. rewrite Ef by lia.
    replace (digits c + j + - j - 53 - - j) with 0 by lia.
    cbn [shr shr_m loc_of_shr_record shr_r shr_s round_nearest_even Zdigits2].
    change (Zpos (digits2_pos (scale c j))) with (digits (scale c j)).
    rewrite scale_digits by trivial. rewrite Ef by lia.
    replace (digits c + j + - j - 53 - - j) with 0 by lia.
    cbn [shr shr_m].
    replace (- j) with (digits c - 53) by lia.
    replace (53 - digits c) with j by lia.
    unfold FloatOps.prec, FloatOps.emax.
    destruct (Z.leb_spec (digits c - 53) (1024 - 53)); [reflexivity | lia].
  - (* more than 53 digits: shift to the right *)
    unfold binary_round_aux, shr_fexp. cbn [Zdigits2 shr_record_of_loc].
    change (Zpos (digits2_pos (scale c j))) with (digits (scale c j)).
    rewrite scale_digits by trivial. rewrite Ef by lia.
    replace (digits c + j + - j - 53 - - j) with (Zpos n) by lia.
    cbn [shr].
    assert (Es : scale c j = Pos.iter xO (scale c (53 - digits c)) n).
    { change (Pos.iter xO (scale c (53 - digits c)) n)
        with (scale (scale c (53 - digits c)) (Zpos n)).
      rewrite scale_scale by lia. f_equal. lia. }
    rewrite Es, shr_scale.
    cbn [shr_m loc_of_shr_record shr_r shr_s round_nearest_even Zdigits2].
    change (Zpos (digits2_pos (scale c (53 - digits c))))
      with (digits (scale c (53 - digits c))).
    rewrite scale_digits by lia. rewrite Ef by lia.
    replace (digits c + (53 - digits c) + (- j + Zpos n) - 53 - (- j + Zpos n)) with 0 by lia.
    cbn [shr shr_m].
    replace (- j + Zpos n) with (digits c - 53) by lia.
    unfold FloatOps.prec, FloatOps.emax.
    destruct (Z.leb_spec (digits c - 53) (1024 - 53)); [reflexivity | lia].
  - (* fewer than 53 digits: shift to the left *)
    change (Pos.iter xO (scale c j) n) with (scale (scale c j) (Zpos n)).
    rewrite scale_scale by lia.
    replace (j + Zpos n) with (53 - digits c) by lia.
    unfold binary_round_aux, shr_fexp. cbn [Zdigits2 shr_record_of_loc].
    change (Zpos (digits2_pos (scale c (53 - digits c))))
      with (digits (scale c (53 - digits c))).
    rewrite scale_digits by lia. rewrite Ef by lia.
    replace (digits c + (53 - digits c) + (digits c - 53) - 53 - (digits c - 53)) with 0 by lia.
    cbn [shr shr_m loc_of_shr_record shr_r shr_s round_nearest_even Zdigits2].
    change (Zpos (digits2_pos (scale c (53 - digits c))))
      with (digits (scale c (53 - digits c))).
    rewrite scale_digits by lia. rewrite Ef by lia.
    replace (digits c + (53 - digits c) + (digits c - 53) - 53 - (digits c - 53)) with 0 by lia.
    cbn [shr shr_m].
    unfold FloatOps.prec, FloatOps.emax.
    destruct (Z.leb_spec (digits c - 53) (1024 - 53)); [reflexivity | lia].
Qed.

Lemma safe_digits c : Zpos c < 2 ^ 53 -> digits c <= 53.
Proof.
  intros H. pose proof (digits_bounds c) as [L _].
  destruct (Z_le_gt_dec (digits c) 53); trivial.
  assert (2 ^ 53 <= 2 ^ (digits c - 1)) by (apply Z.pow_le_mono_r; lia). lia.
Qed.

Lemma Prim2SF_from_Z (a : Z) : safe a -> Prim2SF (Double.from_Z a) = whole_sf a.
Proof.
  unfold safe. intros H.
  assert (P : forall c, Zpos c < 2 ^ 53 ->
            Prim2SF (of_uint63 (Uint63.of_Z (Zpos c)))
            = S754_finite false (scale c (53 - digits c)) (digits c - 53)).
  { intros c Hc. rewrite of_uint63_spec, Uint63.of_Z_spec.
    rewrite Z.mod_small by (unfold Uint63.wB; cbn; lia).
    cbn [binary_normalize].
    change 0 with (- 0).
    apply binary_round_whole; [lia | cbn; lia | now apply safe_digits]. }
  destruct a as [|c|c]; cbn [Double.from_Z whole_sf].
  - reflexivity.
  - apply P. lia.
  - rewrite opp_spec, P by lia. reflexivity.
Qed.

Lemma whole_sf_valid (a : Z) : safe a -> valid_binary (whole_sf a) = true.
Proof. intros H. rewrite <- Prim2SF_from_Z by trivial. apply Prim2SF_valid. Qed.

Lemma from_Z_of_sf (x : float) (a : Z) :
  safe a -> Prim2SF x = whole_sf a -> x = Double.from_Z a.
Proof.
  intros H E. apply Prim2SF_inj. now rewrite Prim2SF_from_Z.
Qed.

(** The value of a mantissa of [whole_sf] at the exponent of another. *)
Lemma aligned (c : positive) (ez : Z) :
  digits c <= 53 -> ez <= digits c - 53 ->
  Zpos (fst (shl_align (scale c (53 - digits c)) (digits c - 53) ez))
  = Zpos c * 2 ^ (- ez).
Proof.
  intros Hd He. unfold shl_align.
  destruct (ez - (digits c - 53)) as [|p|p] eqn:E; cbn [fst]; try lia.
  - rewrite scale_value by lia. do 2 f_equal. lia.
  - change (Pos.iter xO (scale c (53 - digits c)) p)
      with (scale (scale c (53 - digits c)) (Zpos p)).
    rewrite scale_scale, scale_value by lia. do 2 f_equal. lia.
Qed.

Lemma binary_normalize_whole (M a j : Z) :
  0 <= j -> M = a * 2 ^ j -> safe a ->
  binary_normalize FloatOps.prec FloatOps.emax M (- j) false = whole_sf a.
Proof.
  intros Hj HM Ha. unfold safe in Ha.
  assert (H2 : 0 < 2 ^ j) by (apply Z.pow_pos_nonneg; lia).
  destruct a as [|c|c].
  - subst M. reflexivity.
  - destruct M as [|m|m]; try nia. cbn [binary_normalize whole_sf].
    apply binary_round_whole; trivial. apply safe_digits. lia.
  - destruct M as [|m|m]; try nia. cbn [binary_normalize whole_sf].
    apply binary_round_whole; trivial; [nia | apply safe_digits; lia].
Qed.

Lemma SFadd_whole (a b : Z) :
  safe a -> safe b -> safe (a + b) ->
  SF64add (whole_sf a) (whole_sf b) = whole_sf (a + b).
Proof.
  intros Ha Hb Hab. unfold SF64add.
  destruct a as [|ca|ca]; [destruct b; reflexivity| |];
  (destruct b as [|cb|cb]; [rewrite Z.add_0_r; reflexivity| |]).
  all: cbn [whole_sf SFadd].
  all: assert (Da : digits ca <= 53) by (apply safe_digits; unfold safe in *; lia).
  all: assert (Db : digits cb <= 53) by (apply safe_digits; unfold safe in *; lia).
  all: set (ez := Z.min (digits ca - 53) (digits cb - 53)).
  all: rewrite !aligned by (trivial; lia).
  all: replace ez with (- (- ez)) at 3 by lia.
  all: apply binary_normalize_whole; [lia| |trivial].
  all: cbn [cond_Zopp]; lia.
Qed.

Lemma SFsub_whole (a b : Z) :
  safe a -> safe b -> safe (a - b) ->
  SF64sub (whole_sf a) (whole_sf b) = whole_sf (a - b).
Proof.
  intros Ha Hb Hab. unfold SF64sub.
  destruct a as [|ca|ca]; [destruct b; reflexivity| |];
  (destruct b as [|cb|cb]; [rewrite Z.sub_0_r; reflexivity| |]).
  all: cbn [whole_sf SFsub].
  all: assert (Da : digits ca <= 53) by (apply safe_digits; unfold safe in *; lia).
  all: assert (Db : digits cb <= 53) by (apply safe_digits; unfold safe in *; lia).
  all: set (ez := Z.min (digits ca - 53) (digits cb - 53)).
  all: rewrite !aligned by (trivial; lia).
  all: replace ez with (- (- ez)) at 3 by lia.
  all: apply binary_normalize_whole; [lia| |trivial].
  all: cbn [cond_Zopp]; lia.
Qed.

(** [binary_round_aux] on a mantissa of 53 digits or more that ends in
    zeros. *)
Lemma binary_round_aux_whole (s : bool) (m c : positive) (j : Z) :
  0 <= j -> Zpos m = Zpos c * 2 ^ j -> digits c <= 53 -> 53 <= digits c + j ->
  binary_round_aux FloatOps.prec FloatOps.emax s (Zpos m) (- j) loc_Exact
  = S754_finite s (scale c (53 - digits c)) (digits c - 53).
Proof.
  intros Hj Hm Hd Hd'.
  rewrite <- (@binary_round_whole s m c j Hj Hm Hd).
  unfold binary_round.
  apply scale_inj in Hm; trivial. subst m.
  change (Zpos (digits2_pos (scale c j))) with (digits (scale c j)).
  rewrite scale_digits by trivial.
  unfold shl_align, fexp, SpecFloat.emin, FloatOps.prec, FloatOps.emax.
  pose proof (digits_pos c).
  destruct (Z.max (digits c + j + - j - 53) (3 - 1024 - 53) - - j) eqn:E;
    try reflexivity; lia.
Qed.

Lemma SFmul_whole (a b : Z) :
  0 <= a -> 0 <= b -> safe (a * b) ->
  SF64mul (whole_sf a) (whole_sf b) = whole_sf (a * b).
Proof.
  intros Ha Hb Hab. unfold SF64mul.
  destruct a as [|ca|ca]; [destruct b; try reflexivity; lia| |lia].
  destruct b as [|cb|cb]; [reflexivity| |lia].
  cbn [whole_sf SFmul xorb Z.mul].
  assert (Dab : digits (ca * cb) <= 53) by (apply safe_digits; unfold safe in *; lia).
  pose proof (digits_bounds ca) as [La Ua]. pose proof (digits_bounds cb) as [Lb Ub].
  pose proof (digits_bounds (ca * cb)) as [Lab Uab].
  pose proof (digits_pos ca). pose proof (digits_pos cb). pose proof (digits_pos (ca * cb)).
  assert (Dsum : digits ca + digits cb - 1 <= digits (ca * cb)).
  { destruct (Z_le_gt_dec (digits ca + digits cb - 1) (digits (ca * cb))); trivial.
    exfalso.
    assert (2 ^ digits (ca * cb) <= 2 ^ (digits ca + digits cb - 2))
      by (apply Z.pow_le_mono_r; lia).
    replace (digits ca + digits cb - 2) with ((digits ca - 1) + (digits cb - 1)) in * by lia.
    rewrite Z.pow_add_r in * by lia.
    rewrite Pos2Z.inj_mul in Uab. nia. }
  assert (Da : digits ca <= 53) by lia.
  assert (Db : digits cb <= 53) by lia.
  replace (digits ca - 53 + (digits cb - 53))
    with (- (106 - digits ca - digits cb)) by lia.
  apply binary_round_aux_whole; try lia.
  rewrite Pos2Z.inj_mul, !scale_value, Pos2Z.inj_mul by lia.
  replace (106 - digits ca - digits cb) with ((53 - digits ca) + (53 - digits cb)) by lia.
  rewrite Z.pow_add_r by lia. ring.
Qed.

(** The order of two whole numbers is the order of their doubles. *)
Lemma place_whole_pos (c : positive) :
  place (whole_sf (Zpos c)) = (1, digits c - 53, Zpos (scale c (53 - digits c))).
Proof. reflexivity. Qed.

Lemma whole_pos_below (ca cb : positive) :
  digits ca <= 53 -> digits cb <= 53 -> Zpos ca < Zpos cb ->
  digits ca < digits cb
  \/ (digits ca = digits cb
      /\ Zpos (scale ca (53 - digits ca)) < Zpos (scale cb (53 - digits cb))).
Proof.
  intros Da Db Hlt.
  pose proof (digits_bounds ca) as [La Ua]. pose proof (digits_bounds cb) as [Lb Ub].
  destruct (Z.lt_trichotomy (digits ca) (digits cb)) as [H|[H|H]]; [now left| |].
  - right. split; trivial. rewrite !scale_value by lia. rewrite H.
    apply Z.mul_lt_mono_pos_r; trivial. apply Z.pow_pos_nonneg; lia.
  - exfalso.
    assert (2 ^ digits cb <= 2 ^ (digits ca - 1)) by (apply Z.pow_le_mono_r; lia). lia.
Qed.

Lemma whole_below (a b : Z) :
  safe a -> safe b -> a < b -> lower (place (whole_sf a)) (place (whole_sf b)).
Proof.
  intros Ha Hb Hlt. unfold safe in *.
  destruct a as [|ca|ca], b as [|cb|cb]; try lia; cbn [whole_sf place lower]; try lia.
  - assert (Da : digits ca <= 53) by (apply safe_digits; lia).
    assert (Db : digits cb <= 53) by (apply safe_digits; lia).
    destruct (@whole_pos_below ca cb Da Db ltac:(lia)) as [H|[H1 H2]]; lia.
  - assert (Da : digits ca <= 53) by (apply safe_digits; lia).
    assert (Db : digits cb <= 53) by (apply safe_digits; lia).
    destruct (@whole_pos_below cb ca Db Da ltac:(lia)) as [H|[H1 H2]]; lia.
Qed.

Lemma whole_number (a : Z) : sf_not_nan (whole_sf a).
Proof. destruct a; discriminate. Qed.

(** A quotient of whole numbers that is a whole number is exact. *)
Lemma SFdiv_whole (k b : Z) :
  0 <= k -> 0 < b -> safe (k * b) -> safe b -> safe k ->
  SF64div (whole_sf (k * b)) (whole_sf b) = whole_sf k.
Proof.
  intros Hk Hb Hab Sb Sk. unfold SF64div, safe in *.
  destruct b as [|cb|cb]; try lia.
  destruct k as [|ck|ck]; [reflexivity| |lia].
  cbn [Z.mul whole_sf SFdiv xorb].
  set (ca := (ck * cb)%positive).
  assert (Da : digits ca <= 53) by (apply safe_digits; unfold ca; lia).
  assert (Db : digits cb <= 53) by (apply safe_digits; lia).
  assert (Dk : digits ck <= 53) by (apply safe_digits; lia).
  pose proof (digits_pos ca). pose proof (digits_pos cb). pose proof (digits_pos ck).
  pose proof (digits_bounds ca) as [La Ua]. pose proof (digits_bounds cb) as [Lb Ub].
  pose proof (digits_bounds ck) as [Lk Uk].
  assert (Dsum : digits ca <= digits ck + digits cb).
  { destruct (Z_le_gt_dec (digits ca) (digits ck + digits cb)); trivial. exfalso.
    assert (H2 : 2 ^ (digits ck + digits cb) <= 2 ^ (digits ca - 1))
      by (apply Z.pow_le_mono_r; lia).
    rewrite Z.pow_add_r in H2 by lia.
    assert (H3 : Zpos ck * Zpos cb < 2 ^ digits ck * 2 ^ digits cb)
      by (apply Z.mul_lt_mono_nonneg; lia).
    assert (Eca : Zpos ca = Zpos ck * Zpos cb) by (unfold ca; apply Pos2Z.inj_mul).
    lia. }
  set (J := 53 + digits cb - digits ca).
  unfold SFdiv_core_binary. cbn [Zdigits2].
  change (Zpos (digits2_pos (scale ca (53 - digits ca))))
    with (digits (scale ca (53 - digits ca))).
  change (Zpos (digits2_pos (scale cb (53 - digits cb))))
    with (digits (scale cb (53 - digits cb))).
  rewrite !scale_digits by lia.
  assert (Ee : Z.min (fexp FloatOps.prec FloatOps.emax
                        (digits ca + (53 - digits ca) + (digits ca - 53)
                         - (digits cb + (53 - digits cb) + (digits cb - 53))))
                     (digits ca - 53 - (digits cb - 53)) = - J).
  { unfold fexp, SpecFloat.emin, FloatOps.prec, FloatOps.emax, J. lia. }
  rewrite Ee.
  replace (digits ca - 53 - (digits cb - 53) - - J) with 53 by (unfold J; lia).
  rewrite Z.shiftl_mul_pow2 by lia.
  assert (Eca : Zpos ca = Zpos ck * Zpos cb) by (unfold ca; apply Pos2Z.inj_mul).
  assert (HJ : 1 <= J) by (unfold J; lia).
  assert (Eq : Zpos (scale ca (53 - digits ca)) * 2 ^ 53
               = (Zpos ck * 2 ^ J) * Zpos (scale cb (53 - digits cb))).
  { rewrite !scale_value by lia. rewrite Eca.
    replace 53 with ((53 - digits cb) + digits cb) at 2 by lia.
    replace J with ((53 - digits ca) + digits cb) by (unfold J; lia).
    rewrite !Z.pow_add_r by lia. ring. }
  rewrite Eq.
  set (m2 := Zpos (scale cb (53 - digits cb))).
  assert (Hdiv : Z.div_eucl (Zpos ck * 2 ^ J * m2) m2 = (Zpos ck * 2 ^ J, 0)).
  { pose proof (Z.div_mul (Zpos ck * 2 ^ J) m2 ltac:(unfold m2; lia)) as D.
    pose proof (Z.mod_mul (Zpos ck * 2 ^ J) m2 ltac:(unfold m2; lia)) as M.
    unfold Z.div in D. unfold Z.modulo in M.
    destruct (Z.div_eucl (Zpos ck * 2 ^ J * m2) m2) as [q r]. cbn in D, M.
    now subst. }
  rewrite Hdiv.
  assert (Hloc : new_location m2 0 = loc_Exact).
  { unfold new_location, new_location_even, new_location_odd.
    destruct (Z.even m2); reflexivity. }
  rewrite Hloc.
  assert (P2 : 0 < 2 ^ J) by (apply Z.pow_pos_nonneg; lia).
  destruct (Zpos ck * 2 ^ J) as [|q|q] eqn:Eq'; try lia.
  apply binary_round_aux_whole; try lia.
Qed.
End Whole.

(** ** Whole numbers in double arithmetic

    On whole numbers lower 2^53 the operations of the doubles are those of
    the integers. *)

Section WholeDoubles.
Open Scope Z_scope.
Local Abbreviation dbl := Double.from_Z.

Lemma add_whole (a b : Z) :
  safe a -> safe b -> safe (a + b) -> PrimFloat.add (dbl a) (dbl b) = (dbl (a + b)).
Proof.
  intros Ha Hb Hab. apply from_Z_of_sf; trivial.
  rewrite FloatAxioms.add_spec, !Prim2SF_from_Z by trivial. now apply SFadd_whole.
Qed.

Lemma sub_whole (a b : Z) :
  safe a -> safe b -> safe (a - b) -> PrimFloat.sub (dbl a) (dbl b) = (dbl (a - b)).
Proof.
  intros Ha Hb Hab. apply from_Z_of_sf; trivial.
  rewrite FloatAxioms.sub_spec, !Prim2SF_from_Z by trivial. now apply SFsub_whole.
Qed.

Lemma mul_whole (a b : Z) :
  0 <= a -> 0 <= b -> safe (a * b) -> safe a -> safe b ->
  PrimFloat.mul (dbl a) (dbl b) = (dbl (a * b)).
Proof.
  intros Ha Hb Hab Sa Sb. apply from_Z_of_sf; trivial.
  rewrite FloatAxioms.mul_spec, !Prim2SF_from_Z by trivial. now apply SFmul_whole.
Qed.

Lemma number_whole (a : Z) : safe a -> not_nan (dbl a).
Proof. intros H. unfold not_nan. rewrite Prim2SF_from_Z by trivial. apply whole_number. Qed.

Lemma ltb_whole (a b : Z) :
  safe a -> safe b -> PrimFloat.ltb (dbl a) (dbl b) = (a <? b).
Proof.
  intros Ha Hb.
  destruct (Z.ltb_spec a b) as [H|H].
  - apply ltb_rank. repeat split; try now apply number_whole.
    unfold rank. rewrite !Prim2SF_from_Z by trivial. now apply whole_below.
  - destruct (PrimFloat.ltb (dbl a) (dbl b)) eqn:E; trivial.
    apply ltb_rank in E as (_ & _ & E). unfold rank in E.
    rewrite !Prim2SF_from_Z in E by trivial.
    destruct (Z.eq_dec a b) as [->|Hne].
    + destruct (place (whole_sf b)) as [[x y] z]. cbn in E. lia.
    + assert (H' : lower (place (whole_sf b)) (place (whole_sf a)))
        by (apply whole_below; trivial; lia).
      destruct (place (whole_sf b)) as [[x y] z], (place (whole_sf a)) as [[x' y'] z'].
      cbn in *. lia.
Qed.

Lemma leb_whole (a b : Z) :
  safe a -> safe b -> PrimFloat.leb (dbl a) (dbl b) = (a <=? b).
Proof.
  intros Ha Hb.
  destruct (Z.leb_spec a b) as [H|H].
  - apply leb_rank. repeat split; try now apply number_whole.
    unfold rank. rewrite !Prim2SF_from_Z by trivial.
    destruct (Z.eq_dec a b) as [->|Hne]; [now right|].
    left. apply whole_below; trivial; lia.
  - destruct (PrimFloat.leb (dbl a) (dbl b)) eqn:E; trivial.
    apply leb_rank in E as (_ & _ & E). unfold rank in E.
    rewrite !Prim2SF_from_Z in E by trivial.
    assert (H' : lower (place (whole_sf b)) (place (whole_sf a)))
      by (apply whole_below; trivial; lia).
    destruct (place (whole_sf b)) as [[x y] z], (place (whole_sf a)) as [[x' y'] z'].
    cbn in *. destruct E as [E|E]; [lia|]. inversion E; subst. lia.
Qed.

Lemma abs_whole (a : Z) : safe a -> PrimFloat.abs (dbl a) = (dbl (Z.abs a)).
Proof.
  intros Ha. apply from_Z_of_sf; [unfold safe in *; lia|].
  rewrite FloatAxioms.abs_spec, Prim2SF_from_Z by trivial.
  destruct a; reflexivity.
Qed.

(** [new Date(a)] for a whole number of milliseconds within the range of
    [Date] is the date at [a]. *)
Lemma TimeClip_whole (a : Z) :
  Z.abs a <= 8640000000000000 -> Double.TimeClip (dbl a) = (dbl a).
Proof.
  intros Ha.
  assert (Sa : safe a) by (unfold safe; cbn; lia).
  unfold Double.TimeClip.
  rewrite abs_whole by trivial.
  change 8640000000000000%float with (Double.from_Z 8640000000000000).
  rewrite ltb_whole by (unfold safe; cbn; lia).
  destruct (Z.ltb_spec 8640000000000000 (Z.abs a)) as [H|_]; [lia|].
  rewrite Prim2SF_from_Z by trivial.
  destruct a as [|c|c]; cbn [whole_sf]; trivial.
  all: assert (Dc : digits c <= 53) by (apply safe_digits; unfold safe in Sa; lia).
  all: destruct (Z.leb_spec 0 (digits c - 53)) as [H|H]; trivial.
  all: assert (W : Double.whole (scale c (53 - digits c)) (digits c - 53) = Zpos c)
         by (unfold Double.whole; rewrite scale_value by lia;
             replace (- (digits c - 53)) with (53 - digits c) by lia;
             apply Z.div_mul; apply Z.pow_nonzero; lia).
  all: now rewrite W.
Qed.

Lemma div_whole (k b : Z) :
  0 <= k -> 0 < b -> safe (k * b) -> safe b -> safe k ->
  PrimFloat.div (dbl (k * b)) (dbl b) = (dbl k).
Proof.
  intros Hk Hb Hab Sb Sk. apply from_Z_of_sf; trivial.
  rewrite FloatAxioms.div_spec, !Prim2SF_from_Z by trivial. now apply SFdiv_whole.
Qed.

Lemma whole_of_scaled (c : positive) :
  digits c <= 53 ->
  Double.whole (scale c (53 - digits c)) (digits c - 53) = Zpos c
  /\ Double.fraction (scale c (53 - digits c)) (digits c - 53) = false.
Proof.
  intros Hd. unfold Double.whole, Double.fraction. rewrite scale_value by lia.
  replace (- (digits c - 53)) with (53 - digits c) by lia.
  assert (2 ^ (53 - digits c) <> 0) by (apply Z.pow_nonzero; lia).
  rewrite Z.div_mul, Z.mod_mul by trivial. split; reflexivity.
Qed.

(** [Math.ceil] of a whole number is that number. *)
Lemma ceil_whole (a : Z) : safe a -> Double.ceil (dbl a) = (dbl a).
Proof.
  intros Sa. unfold Double.ceil. rewrite Prim2SF_from_Z by trivial.
  destruct a as [|c|c]; cbn [whole_sf]; trivial.
  all: assert (Dc : digits c <= 53) by (apply safe_digits; unfold safe in Sa; lia).
  all: destruct (Z.leb_spec 0 (digits c - 53)) as [H|H]; trivial.
  all: destruct (whole_of_scaled c Dc) as [W F]; rewrite W; try rewrite F; reflexivity.
Qed.

(** The loop [for (let i = 0; i < n; i++)] makes [n] rounds for a whole
    [n], none for a negative one. *)
Lemma rounds_whole (a : Z) : safe a -> Double.rounds (dbl a) = Some (Z.to_nat a).
Proof.
  intros Sa. unfold Double.rounds.
  assert (L : PrimFloat.leb (dbl a) 9007199254740992 = true).
  { apply leb_rank. unfold not_nan, rank. rewrite Prim2SF_from_Z by trivial.
    repeat split; [apply whole_number | discriminate |].
    left. change (place (Prim2SF 9007199254740992)) with (1, 1, 4503599627370496).
    destruct a as [|c|c]; cbn [whole_sf place lower]; try lia.
    assert (Dc : digits c <= 53) by (apply safe_digits; unfold safe in Sa; lia). lia. }
  rewrite L. rewrite Prim2SF_from_Z by trivial.
  destruct a as [|c|c]; cbn [whole_sf]; trivial.
  assert (Dc : digits c <= 53) by (apply safe_digits; unfold safe in Sa; lia).
  destruct (whole_of_scaled c Dc) as [W F].
  destruct (Z.leb_spec 0 (digits c - 53)) as [H|H].
  - assert (E : digits c = 53) by lia. rewrite E.
    change (53 - 53) with 0. cbn [scale]. f_equal. f_equal. lia.
  - now rewrite F, W.
Qed.
End WholeDoubles.

Section WholeOrder.
Open Scope Z_scope.
Local Abbreviation dbl := Double.from_Z.

Lemma is_nan_whole (a : Z) : safe a -> PrimFloat.is_nan (dbl a) = false.
Proof. intros H. apply is_nan_number. now apply number_whole. Qed.

Lemma eqb_whole (a b : Z) :
  safe a -> safe b -> PrimFloat.eqb (dbl a) (dbl b) = (a =? b).
Proof.
  intros Sa Sb. rewrite FloatAxioms.eqb_spec, !Prim2SF_from_Z by trivial.
  unfold SFeqb.
  pose proof (SFcompare_place (whole_sf a) (whole_sf b)) as H.
  destruct (Z.eqb_spec a b) as [->|Hne].
  - destruct (SFcompare (whole_sf b) (whole_sf b)) as [[| |]|]; trivial.
    + destruct H as (_ & _ & H). destruct (place (whole_sf b)) as [[x y] z].
      cbn in H. lia.
    + destruct H as (_ & _ & H). destruct (place (whole_sf b)) as [[x y] z].
      cbn in H. lia.
    + destruct H as [H|H]; exfalso; apply H; apply whole_number.
  - destruct (SFcompare (whole_sf a) (whole_sf b)) as [[| |]|]; trivial.
    destruct H as (_ & _ & H).
    destruct (Z.lt_trichotomy a b) as [L|[L|L]]; [|lia|].
    + pose proof (whole_below a b Sa Sb L) as B. rewrite H in B.
      destruct (place (whole_sf b)) as [[x y] z]. cbn in B. lia.
    + pose proof (whole_below b a Sb Sa L) as B. rewrite H in B.
      destruct (place (whole_sf b)) as [[x y] z]. cbn in B. lia.
Qed.

Lemma max_whole (a b : Z) :
  safe a -> safe b -> Double.max (dbl a) (dbl b) = dbl (Z.max a b).
Proof.
  intros Sa Sb. unfold Double.max. rewrite !is_nan_whole by trivial. cbn [orb].
  rewrite !ltb_whole by trivial.
  destruct (Z.ltb_spec a b); [f_equal; lia|].
  destruct (Z.ltb_spec b a); [f_equal; lia|].
  assert (a = b) by lia. subst b.
  change 0%float with (dbl 0). rewrite eqb_whole by (trivial; unfold safe; lia).
  destruct (Z.eqb_spec a 0) as [->|Hne]; [reflexivity | f_equal; lia].
Qed.

Lemma min_whole (a b : Z) :
  safe a -> safe b -> Double.min (dbl a) (dbl b) = dbl (Z.min a b).
Proof.
  intros Sa Sb. unfold Double.min. rewrite !is_nan_whole by trivial. cbn [orb].
  rewrite !ltb_whole by trivial.
  destruct (Z.ltb_spec a b); [f_equal; lia|].
  destruct (Z.ltb_spec b a); [f_equal; lia|].
  assert (a = b) by lia. subst b.
  change 0%float with (dbl 0). rewrite eqb_whole by (trivial; unfold safe; lia).
  destruct (Z.eqb_spec a 0) as [->|Hne]; [reflexivity | f_equal; lia].
Qed.
End WholeOrder.

Section WholeDurations.
Open Scope Z_scope.
Local Abbreviation dbl := Double.from_Z.
Variables bs be : Z.
Hypothesis safe_bs : safe bs.
Hypothesis safe_be : safe be.

Lemma shared_nonneg (a b : Z) : 0 <= shared bs be a b.
Proof. unfold shared. lia. Qed.

Lemma total_shared_nonneg (stamps : list Z) : 0 <= total_shared bs be stamps.
Proof.
  induction stamps as [|a rest IH]; [reflexivity|].
  destruct rest as [|b rest']; [reflexivity|].
  change (total_shared bs be (a :: b :: rest'))
    with (shared bs be a b + total_shared bs be (b :: rest')).
  pose proof (shared_nonneg a b). lia.
Qed.

(** On whole milliseconds the doubles add up the durations exactly. *)
Lemma weigh_on_whole_ms (sw : list (point float)) : forall (stamps : list Z) (ws : float) (acc : Z),
  map timestamp sw = map dbl stamps ->
  Forall safe stamps ->
  0 <= acc -> acc + total_shared bs be stamps < 2 ^ 53 ->
  snd (weigh (R := float) (dbl bs) (dbl be) sw (ws, dbl acc))
  = dbl (acc + total_shared bs be stamps).
Proof.
  induction sw as [|cur rest IH]; intros stamps ws acc Hst Hsafe Hacc Hbound.
  - destruct stamps; [|discriminate]. cbn. f_equal. lia.
  - destruct stamps as [|a stamps']; [discriminate|].
    cbn [map] in Hst. injection Hst as Ecur Hst.
    destruct rest as [|next rest'].
    + destruct stamps' as [|? ?]; [|discriminate]. cbn. f_equal. lia.
    + destruct stamps' as [|b stamps'']; [discriminate|].
      pose proof Hst as Hst'. cbn [map] in Hst'. injection Hst' as Enext _.
      change (weigh (dbl bs) (dbl be) (cur :: next :: rest') (ws, dbl acc))
        with (weigh (dbl bs) (dbl be) (next :: rest')
                (contribute (dbl bs) (dbl be) cur next (ws, dbl acc))).
      change (total_shared bs be (a :: b :: stamps''))
        with (shared bs be a b + total_shared bs be (b :: stamps'')) in *.
      inversion Hsafe as [|? ? Sa Hsafe']; subst.
      inversion Hsafe' as [|? ? Sb _]; subst.
      pose proof (total_shared_nonneg (b :: stamps'')) as Hnn.
      pose proof (shared_nonneg a b) as Hsh.
      unfold contribute.
      change (@Math_max float Double.number) with Double.max.
      change (@Math_min float Double.number) with Double.min.
      change (@getTime float Double.number (timestamp cur)) with (timestamp cur).
      change (@getTime float Double.number (timestamp next)) with (timestamp next).
      rewrite Ecur, Enext, max_whole, min_whole by trivial.
      change (@ltb float Double.number) with PrimFloat.ltb.
      assert (Smax : safe (Z.max a bs)) by (unfold safe in *; lia).
      assert (Smin : safe (Z.min b be)) by (unfold safe in *; lia).
      rewrite ltb_whole by trivial.
      destruct (Z.ltb_spec (Z.max a bs) (Z.min b be)) as [Hlt|Hge].
      * assert (Esh : shared bs be a b = Z.min b be - Z.max a bs)
          by (unfold shared; lia).
        change (@sub float Double.number) with PrimFloat.sub.
        change (@add float Double.number) with PrimFloat.add.
        rewrite sub_whole by (trivial; unfold safe; lia).
        rewrite (add_whole acc) by (unfold safe; lia).
        rewrite (IH _ _ (acc + (Z.min b be - Z.max a bs)) Hst Hsafe') by lia.
        f_equal. lia.
      * assert (Esh : shared bs be a b = 0) by (unfold shared; lia).
        rewrite (IH _ _ acc Hst Hsafe') by lia. f_equal. lia.
Qed.
End WholeDurations.

Section OrderedStamps.
Open Scope Z_scope.

Lemma last_of_cons (l : list Z) : forall c a b, last (c :: l) a = last (c :: l) b.
Proof.
  induction l as [|d l IH]; intros c a b; [reflexivity|].
  change (last (c :: d :: l) a) with (last (d :: l) a).
  change (last (c :: d :: l) b) with (last (d :: l) b).
  apply IH.
Qed.

Lemma sorted_last (l : list Z) : forall a,
  StronglySorted Z.le (a :: l) -> a <= last l a.
Proof.
  induction l as [|b l IH]; intros a H; [cbn; lia|].
  inversion H as [|? ? Hs Hall]; subst.
  inversion Hall as [|? ? Hab _]; subst.
  specialize (IH b Hs).
  destruct l as [|c l']; [exact Hab|].
  change (last (b :: c :: l') a) with (last (c :: l') a).
  rewrite (last_of_cons l' c a b). lia.
Qed.

(** For stamps in time order the durations add up to the time the bucket
    shares with the span from the first stamp to the last. *)
Lemma total_shared_ordered (bs be : Z) (l : list Z) : forall a,
  bs <= be -> StronglySorted Z.le (a :: l) ->
  total_shared bs be (a :: l) = shared bs be a (last l a).
Proof.
  induction l as [|b l IH]; intros a Hb H.
  - cbn. unfold shared. lia.
  - inversion H as [|? ? Hs Hall]; subst.
    inversion Hall as [|? ? Hab _]; subst.
    change (total_shared bs be (a :: b :: l))
      with (shared bs be a b + total_shared bs be (b :: l)).
    rewrite (IH b Hb Hs).
    pose proof (sorted_last l b Hs) as Hl.
    assert (El : last (b :: l) a = last l b).
    { destruct l as [|c l']; [reflexivity|].
      change (last (b :: c :: l') a) with (last (c :: l') a).
      apply last_of_cons. }
    rewrite El. unfold shared. lia.
Qed.
Lemma last_cons (l : list Z) (b a : Z) : last (b :: l) a = last l b.
Proof.
  destruct l as [|c l']; [reflexivity|].
  change (last (b :: c :: l') a) with (last (c :: l') a).
  apply last_of_cons.
Qed.

Lemma sorted_in_last (l : list Z) : forall a x,
  StronglySorted Z.le (a :: l) -> In x (a :: l) -> x <= last l a.
Proof.
  induction l as [|b l IH]; intros a x H Hin.
  - destruct Hin as [<-|[]]. cbn. lia.
  - destruct Hin as [<-|Hin]; [now apply sorted_last|].
    inversion H as [|? ? Hs _]; subst.
    rewrite last_cons. now apply IH.
Qed.
End OrderedStamps.

Set Implicit Arguments.

(** ** The guard *)

(** C3: when [pointsPerHour <= 0], and when [states] is empty, the method
    returns [states] as it is, whatever [hours] is. *)
Theorem pass_through_or_empty {R : Type} {num : Number R}
    (endpoint now : Date) (states : list (point R)) (hours r : R) :
  leb r zero = true \/ states = [] ->
  _downsampleHistory endpoint now states hours r = Returns states.
Proof.
  intros H. destruct H as [H | H].
  - apply guard_returns. now left.
  - apply guard_returns. now right.
Qed.

Lemma pass_through_or_empty_witness :
  _downsampleHistory (num := Exact.number) Scenario.now Scenario.now
    Scenario.rawStates (of_Z 2) (of_Z (-1)) = Returns Scenario.rawStates.
Proof.
  apply (@pass_through_or_empty Q Exact.number). left. reflexivity.
Defined.

Example pass_through_zero :
  _downsampleHistory (num := Double.number) Scenario.now Scenario.now
    Scenario.rawStates (of_Z 2) (of_Z 0) = Returns Scenario.rawStates.
Proof. apply guard_returns. left. reflexivity. Qed.

Example empty_history (r : Q) :
  _downsampleHistory (num := Exact.number) Scenario.now Scenario.now [] (of_Z 2) r
  = Returns [].
Proof. apply guard_returns. now right. Qed.

(** ** Double arithmetic: the method returns unless its loop has no end *)

Section DoubleTotal.
Variables (states sw : list (point float)) (start : Date (R := float)).
Variable interval : float.

(** A quotient of doubles always has a value, so the loop over the buckets
    ends after its [n] rounds. *)
Lemma double_buckets n : forall i lastValue,
  exists l, buckets states sw start interval n i lastValue [] = Returns l.
Proof.
  induction n as [|n IH]; intros i lastValue; cbn [buckets].
  - now exists [].
  - destruct (sums sw start interval i) as [ws tot].
    destruct (ltb zero tot).
    + change (divide ws tot) with (Returns (PrimFloat.div ws tot)).
      cbn [bind]. rewrite buckets_app.
      destruct (IH (S i) (carried states (bucketEndTime start interval i) lastValue))
        as [l ->].
      cbn [bind]. eauto.
    + rewrite buckets_app. destruct (IH (S i) lastValue) as [l ->]. cbn [bind]. eauto.
Qed.
End DoubleTotal.

(** [numBuckets] as the doubles make it. *)
Definition numBuckets (now : Date (R := float)) (hours pointsPerHour : float) : float :=
  Math_ceil (PrimFloat.div (sub (getTime now) (getTime (startTime now hours)))
                           (PrimFloat.div (of_Z MS_IN_H) pointsPerHour)).

(** The method past its guard, in double arithmetic. *)
Lemma double_downsample (endpoint now : Date (R := float))
    (states : list (point float)) (hours pointsPerHour : float) :
  leb pointsPerHour zero = false -> states <> [] ->
  match iterations (numBuckets now hours pointsPerHour) with
  | Some n =>
      exists l,
        buckets states (statesWithEndpoints endpoint states) (startTime now hours)
          (PrimFloat.div (of_Z MS_IN_H) pointsPerHour) n 0 (firstValue states) []
        = Returns l
        /\ List.length l = n
        /\ _downsampleHistory endpoint now states hours pointsPerHour
           = Returns (Point (startTime now hours) (firstValue states) :: l)
  | None => _downsampleHistory endpoint now states hours pointsPerHour = RunsForever
  end.
Proof.
  intros Hp Hs. rewrite downsample_unfold by trivial.
  change (divide (of_Z MS_IN_H) pointsPerHour)
    with (Returns (PrimFloat.div (of_Z MS_IN_H) pointsPerHour)).
  cbn [bind].
  change (divide (sub (getTime now) (getTime (startTime now hours)))
                 (PrimFloat.div (of_Z MS_IN_H) pointsPerHour))
    with (Returns (PrimFloat.div (sub (getTime now) (getTime (startTime now hours)))
                                 (PrimFloat.div (of_Z MS_IN_H) pointsPerHour))).
  cbn [bind]. fold (numBuckets now hours pointsPerHour).
  destruct (iterations (numBuckets now hours pointsPerHour)) as [n|]; [|reflexivity].
  destruct (double_buckets states (statesWithEndpoints endpoint states)
              (startTime now hours) (PrimFloat.div (of_Z MS_IN_H) pointsPerHour)
              n 0 (firstValue states)) as [l El].
  exists l. split; [exact El|]. split; [now apply buckets_length in El|].
  now rewrite El.
Qed.

(** ** Buckets without a sample interval *)

(** In an arithmetic where zero is not below zero, and where a state
    interval that shares time with a bucket starts at or before the end of
    the bucket, the variable [lastValue] is what the comments say. *)
Section CarryLaws.
Context {R : Type} {num : Number R}.
Hypothesis zero_not_positive : ltb zero zero = false.
Hypothesis starts_before_end : forall a bs b be : R,
  ltb (Math_max a bs) (Math_min b be) = true -> leb a be = true.






Section Tracker.
Variables (endpoint : Date) (states : list (point R)).
Variables (start : Date) (interval lastValue0 : R).

Local Abbreviation sw := (statesWithEndpoints endpoint states).


End Tracker.
End CarryLaws.




(** The same happens without a second read of the clock where rounding
    makes a bucket too many: one hour at 47 points per hour makes 48
    buckets, the last one past the virtual last state; it takes the last
    known value, 100, and the bucket before it holds a mean of 5 and 100. *)
Example carry_forward_after_rounding :
  _downsampleHistory (num := Double.number) Scenario.now Scenario.now
    Scenario.late_change (of_Z 1) (of_Z 47) = Returns Scenario.late_result
  /\ ltb zero (snd (sums (statesWithEndpoints Scenario.now Scenario.late_change)
                     (startTime Scenario.now (of_Z 1))
                     (PrimFloat.div 3600000 47) 47)) = false
  /\ exists before p,
      nth_error Scenario.late_result 47 = Some before
      /\ nth_error Scenario.late_result 48 = Some p
      /\ value p = 100%float
      /\ PrimFloat.ltb (value before) 80 = true.
Proof.
  split; [reflexivity|].
  split; [vm_compute; reflexivity|].
  eexists _, _. split; [reflexivity|].
  split; [reflexivity|].
  split; vm_compute; reflexivity.
Qed.

(** ** The number of buckets *)

(** C4 at one hour and 47 points per hour, in double arithmetic: the
    interval 3600000 / 47 is rounded down, the quotient of the window by it
    is just above 47, and [Math.ceil] makes 48 buckets of it: the result has
    49 elements where [ceil(hours * pointsPerHour) + 1] is 48, and its last
    bucket ends after [now].  Exact arithmetic gives 48 elements. *)
Theorem bucket_count_rounded_up :
  _downsampleHistory (num := Double.number) Scenario.now Scenario.now
    Scenario.late_change (of_Z 1) (of_Z 47) = Returns Scenario.late_result
  /\ List.length Scenario.late_result = 49%nat
  /\ iterations (Math_ceil (mul (of_Z 1) (of_Z 47) : float)) = Some 47%nat
  /\ (exists p, nth_error Scenario.late_result 48 = Some p
                /\ PrimFloat.ltb Scenario.now (timestamp p) = true)
  /\ List.length (run (_downsampleHistory (num := Exact.number) Scenario.now
                         Scenario.now Scenario.late_change (of_Z 1) (of_Z 47)))
     = 48%nat.
Proof.
  split; [reflexivity|].
  split; [reflexivity|].
  split; [vm_compute; reflexivity|].
  split; [eexists; split; [reflexivity | vm_compute; reflexivity]|].
  vm_compute. reflexivity.
Qed.

(** ** Exact arithmetic: the tests of the code as order on the rationals *)

Section ExactOrder.
Open Scope Q_scope.

Lemma Qltb_true (a b : Q) : Exact.Qltb a b = true <-> a < b.
Proof.
  unfold Exact.Qltb. rewrite negb_true_iff, <- not_true_iff_false, Qle_bool_iff.
  split; [apply Qnot_le_lt | apply Qlt_not_le].
Qed.

Lemma Qltb_false (a b : Q) : Exact.Qltb a b = false <-> b <= a.
Proof.
  unfold Exact.Qltb. rewrite negb_false_iff. apply Qle_bool_iff.
Qed.

Lemma Qleb_false (a b : Q) : Qle_bool a b = false <-> b < a.
Proof.
  rewrite <- not_true_iff_false, Qle_bool_iff.
  split; [apply Qnot_le_lt | apply Qlt_not_le].
Qed.

Lemma Qmax_spec (a b : Q) :
  (a <= b /\ Exact.Qmax a b = b) \/ (b < a /\ Exact.Qmax a b = a).
Proof.
  unfold Exact.Qmax. destruct (Qle_bool a b) eqn:E.
  - left. now rewrite Qle_bool_iff in E.
  - right. now rewrite Qleb_false in E.
Qed.

Lemma Qmin_spec (a b : Q) :
  (a <= b /\ Exact.Qmin a b = a) \/ (b < a /\ Exact.Qmin a b = b).
Proof.
  unfold Exact.Qmin. destruct (Qle_bool a b) eqn:E.
  - left. now rewrite Qle_bool_iff in E.
  - right. now rewrite Qleb_false in E.
Qed.

(** A quotient by a number that is not zero has a value. *)
Lemma divide_exact (a b : Q) : ~ b == 0 -> divide a b = Returns (a / b).
Proof.
  intros H. unfold divide. simpl. unfold Exact.Qdiv_opt.
  destruct (Qeq_bool b 0) eqn:E; [|reflexivity].
  apply Qeq_bool_iff in E. contradiction.
Qed.

Lemma interval_positive (pointsPerHour : Q) :
  0 < pointsPerHour -> 0 < inject_Z MS_IN_H / pointsPerHour.
Proof.
  intros H. apply Qlt_shift_div_l; [exact H|].
  rewrite Qmult_0_l. reflexivity.
Qed.
End ExactOrder.

(** ** Exact arithmetic: the method always returns *)

Section ExactTotal.
Open Scope Q_scope.
Variables (states sw : list (point Q)) (start : Date (R := Q)) (interval : Q).

Lemma buckets_total n : forall i lastValue,
  exists l, buckets states sw start interval n i lastValue [] = Returns l.
Proof.
  induction n as [|n IH]; intros i lastValue; cbn [buckets].
  - now exists [].
  - destruct (sums sw start interval i) as [ws tot].
    destruct (ltb zero tot) eqn:E.
    + apply Qltb_true in E.
      rewrite divide_exact by (intros H; rewrite H in E; now apply Qlt_irrefl in E).
      cbn [bind]. rewrite buckets_app.
      destruct (IH (S i) (carried states (bucketEndTime start interval i) lastValue))
        as [l ->].
      cbn [bind]. eauto.
    + rewrite buckets_app. destruct (IH (S i) lastValue) as [l ->]. cbn [bind]. eauto.
Qed.
End ExactTotal.

(** The method past its guard, in exact arithmetic. *)
Lemma downsample_exact (endpoint now : Date (R := Q)) (states : list (point Q)) (hours pointsPerHour : Q) :
  (0 < pointsPerHour)%Q -> states <> [] ->
  exists l,
    buckets states (statesWithEndpoints endpoint states) (startTime now hours)
      (inject_Z MS_IN_H / pointsPerHour)
      (Z.to_nat (Qceiling ((inject_Z now - inject_Z (startTime now hours))
                           / (inject_Z MS_IN_H / pointsPerHour))))
      0 (firstValue states) [] = Returns l
    /\ _downsampleHistory endpoint now states hours pointsPerHour
       = Returns (Point (startTime now hours) (firstValue states) :: l).
Proof.
  intros Hp Hs.
  pose proof (interval_positive Hp) as Hi.
  destruct (buckets_total states (statesWithEndpoints endpoint states)
              (startTime now hours) (inject_Z MS_IN_H / pointsPerHour)
              (Z.to_nat (Qceiling ((inject_Z now - inject_Z (startTime now hours))
                                   / (inject_Z MS_IN_H / pointsPerHour))))
              0 (firstValue states)) as [l El].
  exists l. split; [exact El|].
  rewrite downsample_unfold by (trivial; now apply Qleb_false).
  rewrite divide_exact by (intros H; rewrite H in Hp; now apply Qlt_irrefl in Hp).
  cbn [bind].
  rewrite divide_exact by (intros H; rewrite H in Hi; now apply Qlt_irrefl in Hi).
  cbn [bind]. cbn [iterations Math_ceil Exact.number].
  rewrite Qceiling_Z.
  exact (f_equal (fun m => l0 <- m ;;
                    Returns (Point (startTime now hours) (firstValue states) :: l0)) El).
Qed.

(** In exact arithmetic, where a quotient by zero has no value, the method
    returns a list for every input: no quotient of it, not
    [weightedSum / totalDurationInBucket] in particular, is ever taken by
    zero. *)
Lemma downsample_exact_returns (endpoint now : Date (R := Q)) (states : list (point Q)) (hours pointsPerHour : Q) :
  exists r, _downsampleHistory endpoint now states hours pointsPerHour = Returns r.
Proof.
  destruct (Qle_bool pointsPerHour 0) eqn:Hg.
  - exists states. apply guard_returns. now left.
  - destruct states as [|s0 states'] eqn:Es.
    + exists []. apply guard_returns. now right.
    + apply Qleb_false in Hg.
      destruct (@downsample_exact endpoint now (s0 :: states') hours pointsPerHour Hg)
        as (l & _ & E); [discriminate|].
      eauto.
Qed.

(** ** Double arithmetic: what the method returns, and when *)

Section Values.
Context {R : Type} {num : Number R}.
Variables (states sw : list (point R)) (start : Date) (interval lastValue0 : R).

End Values.



(** ** Exact arithmetic: every value is within the range of the input *)

Section ExactRange.
Open Scope Q_scope.
Variables lo hi : Q.




End ExactRange.

Section ExactBounds.
Open Scope Q_scope.


End ExactBounds.




(** ** The order of the timestamps *)

Section ExactTimestamps.
Open Scope Q_scope.

Lemma Qtruncate_nonneg (x : Q) : 0 <= x -> Exact.Qtruncate x = Qfloor x.
Proof.
  destruct x as [n d]. unfold Qle, Exact.Qtruncate, Qfloor. simpl.
  intros H. apply Z.quot_div_nonneg; lia.
Qed.

Lemma Qfloor_step (x y : Q) : x + 1 <= y -> (Qfloor x < Qfloor y)%Z.
Proof.
  intros H. rewrite Zlt_Qlt.
  pose proof (Qfloor_le x). pose proof (Qlt_floor y) as Hy.
  rewrite inject_Z_plus in Hy. change (inject_Z 1) with 1 in Hy. lra.
Qed.

Lemma inject_Z_nonneg (z : Z) : (0 <= z)%Z -> 0 <= inject_Z z.
Proof. intros H. change 0 with (inject_Z 0). now rewrite <- Zle_Qle. Qed.

Variables (start : Z) (interval : Q).
Hypothesis start_nonneg : (0 <= start)%Z.
Hypothesis interval_ge_1 : 1 <= interval.

(** The end of bucket [i] as the code computes it. *)
Let ending (i : nat) : Q :=
  inject_Z start + (inject_Z (Z.of_nat i) + inject_Z 1) * interval.

Lemma bucketTimestamp_floor i :
  bucketTimestamp (R := Q) start interval i = Qfloor (ending i).
Proof.
  unfold bucketTimestamp. cbn [new_Date add mul of_Z getTime Exact.number].
  apply Qtruncate_nonneg.
  assert (0 <= inject_Z start) by (now apply inject_Z_nonneg).
  assert (0 <= inject_Z (Z.of_nat i)) by (apply inject_Z_nonneg; lia).
  unfold ending. change (inject_Z 1) with 1.
  assert (0 <= (inject_Z (Z.of_nat i) + 1) * interval)
    by (apply Qmult_le_0_compat; lra).
  lra.
Qed.

Lemma first_bucket_after_start :
  (start < bucketTimestamp (R := Q) start interval 0)%Z.
Proof.
  rewrite bucketTimestamp_floor.
  rewrite <- (Qfloor_Z start) at 1. apply Qfloor_step.
  unfold ending. change (inject_Z (Z.of_nat 0)) with 0. change (inject_Z 1) with 1. lra.
Qed.

Lemma bucket_after_bucket i :
  (bucketTimestamp (R := Q) start interval i
   < bucketTimestamp (R := Q) start interval (S i))%Z.
Proof.
  rewrite !bucketTimestamp_floor. apply Qfloor_step. unfold ending.
  rewrite Nat2Z.inj_succ, <- Z.add_1_r, inject_Z_plus.
  change (inject_Z 1) with 1. lra.
Qed.
End ExactTimestamps.

Lemma bucket_timestamp_at {R : Type} {num : Number R}
    (states sw : list (point R)) (start : Date) (interval : R) n lastValue l j p :
  buckets states sw start interval n 0 lastValue [] = Returns l ->
  nth_error l j = Some p ->
  timestamp p = bucketTimestamp start interval j.
Proof.
  intros E Hp. pose proof (buckets_timestamps _ _ _ _ _ _ _ E) as Ht.
  pose proof (buckets_length _ _ _ _ _ _ _ E) as Hn.
  assert (Hj : (j < n)%nat) by (rewrite <- Hn; apply nth_error_Some; congruence).
  apply (map_nth_error timestamp) in Hp. rewrite Ht in Hp.
  assert (Hseq : nth_error (seq 0 n) j = Some j).
  { rewrite nth_error_nth' with (d := 0%nat) by (now rewrite length_seq).
    now rewrite seq_nth. }
  rewrite (map_nth_error _ _ _ Hseq) in Hp. now injection Hp.
Qed.

(** In exact arithmetic, where [new Date] has no range: past the guard, with
    buckets of one millisecond or more ([pointsPerHour <= 3600000]) and a
    window that starts at or after the epoch, the timestamps of the result
    increase strictly from each element to the next. *)
Lemma timestamps_increase_exact (endpoint now : Date (R := Q))
    (states : list (point Q)) (hours pointsPerHour : Q) :
  (0 < pointsPerHour)%Q -> (pointsPerHour <= inject_Z MS_IN_H)%Q ->
  states <> [] ->
  (0 <= startTime now hours)%Z ->
  exists r,
    _downsampleHistory endpoint now states hours pointsPerHour = Returns r
    /\ forall i p q,
        nth_error r i = Some p -> nth_error r (S i) = Some q ->
        (timestamp p < timestamp q)%Z.
Proof.
  intros Hp Hmax Hs Hstart.
  destruct (@downsample_exact endpoint now states hours pointsPerHour Hp Hs)
    as (l & El & E).
  eexists. split; [exact E|].
  assert (Hiv : (1 <= inject_Z MS_IN_H / pointsPerHour)%Q).
  { apply Qle_shift_div_l; [exact Hp|]. now rewrite Qmult_1_l. }
  intros i p q Hi HSi. cbn [nth_error] in HSi.
  destruct i as [|i]; cbn [nth_error] in Hi.
  - injection Hi as <-. cbn [timestamp].
    rewrite (bucket_timestamp_at _ _ _ _ _ _ _ El HSi).
    now apply first_bucket_after_start.
  - rewrite (bucket_timestamp_at _ _ _ _ _ _ _ El Hi).
    rewrite (bucket_timestamp_at _ _ _ _ _ _ _ El HSi).
    now apply bucket_after_bucket.
Qed.

(** ** Double arithmetic: the timestamps on whole milliseconds *)

Section WholeTimestamps.
Open Scope Z_scope.
Variables (s w : Z).
Hypothesis start_at_or_after_epoch : 0 <= s.
Hypothesis whole_interval : 1 <= w.

(** The end of bucket [i], as long as it is a date. *)
Lemma bucketTimestamp_whole (i : nat) :
  s + (Z.of_nat i + 1) * w <= 8640000000000000 ->
  bucketTimestamp (R := float) (Double.from_Z s) (Double.from_Z w) i
  = Double.from_Z (s + (Z.of_nat i + 1) * w).
Proof.
  intros H. unfold bucketTimestamp.
  cbn [new_Date getTime add mul of_Z Double.number].
  assert (H53 : 8640000000000000 < 2 ^ 53) by reflexivity.
  assert (Hi : 0 <= Z.of_nat i) by lia.
  assert (Hw : (Z.of_nat i + 1) <= (Z.of_nat i + 1) * w) by nia.
  rewrite add_whole by (unfold safe; lia).
  rewrite mul_whole by (unfold safe; nia).
  rewrite add_whole by (unfold safe; nia).
  apply TimeClip_whole. nia.
Qed.
End WholeTimestamps.

Lemma nth_error_map_seq {A : Type} (f : nat -> A) (m i : nat) (x : A) :
  nth_error (map f (seq 0 m)) i = Some x -> (i < m)%nat /\ x = f i.
Proof.
  intros H.
  assert (Hi : (i < m)%nat).
  { assert (Hl : (i < List.length (map f (seq 0 m)))%nat)
      by (apply nth_error_Some; congruence).
    now rewrite length_map, length_seq in Hl. }
  split; [exact Hi|].
  assert (Hs : nth_error (seq 0 m) i = Some i).
  { rewrite nth_error_nth' with (d := 0%nat) by (now rewrite length_seq).
    now rewrite seq_nth. }
  rewrite (map_nth_error f _ _ Hs) in H. now injection H.
Qed.

(** On whole milliseconds the elements are stamped [s], [s + w], ...,
    [s + n * w]. *)
Lemma whole_ms_timestamps (endpoint now : Date (R := float))
    (states : list (point float)) (hours pointsPerHour : float)
    (s w : Z) (n : nat) :
  leb pointsPerHour zero = false -> states <> [] ->
  PrimFloat.div (of_Z MS_IN_H) pointsPerHour = of_Z w -> (1 <= w)%Z ->
  startTime now hours = of_Z s -> (0 <= s)%Z ->
  iterations (numBuckets now hours pointsPerHour) = Some n ->
  (s + Z.of_nat n * w <= 8640000000000000)%Z ->
  exists r,
    _downsampleHistory endpoint now states hours pointsPerHour = Returns r
    /\ map timestamp r = map (fun k => of_Z (s + Z.of_nat k * w)%Z) (seq 0 (S n)).
Proof.
  intros Hp Hs Hw Hw1 Hstart Hs0 Hn Hrange.
  pose proof (@double_downsample endpoint now states hours pointsPerHour Hp Hs) as H.
  rewrite Hn in H. destruct H as (l & El & Hlen & E).
  eexists. split; [exact E|].
  cbn [map timestamp seq]. f_equal.
  - rewrite Hstart. replace (s + Z.of_nat 0 * w)%Z with s by lia. reflexivity.
  - rewrite (buckets_timestamps _ _ _ _ _ _ _ El), <- seq_shift, map_map.
    apply map_ext_in. intros i Hi. apply in_seq in Hi.
    rewrite Hw, Hstart.
    change (of_Z s) with (Double.from_Z s). change (of_Z w) with (Double.from_Z w).
    rewrite bucketTimestamp_whole by (trivial; nia).
    replace (s + Z.of_nat (S i) * w)%Z with (s + (Z.of_nat i + 1) * w)%Z by lia.
    reflexivity.
Qed.




(** ** What a state interval adds to a bucket *)

Section ExactContribution.
Open Scope Q_scope.

Lemma contribute_nothing bs be (cur next : point Q) acc :
  Exact.Qmin (getTime (timestamp next)) be <= Exact.Qmax (getTime (timestamp cur)) bs ->
  contribute bs be cur next acc = acc.
Proof.
  intros H. unfold contribute. destruct acc as [ws tot].
  destruct (ltb _ _) eqn:E; [|reflexivity].
  apply Qltb_true in E. cbn [Math_max Math_min Exact.number] in E. lra.
Qed.
End ExactContribution.

(** C8, as the code has it, in exact arithmetic: a round of the inner loop
    leaves [weightedSum] and [totalDurationInBucket] as they are unless the
    state interval and the bucket overlap for a positive time.  So a touch
    of no duration adds nothing, an interval that ends at or before the
    start of the window adds nothing to any bucket, and neither does one that
    starts at or after the end of the last bucket, nor one that ends before
    it starts. *)
Theorem contribution_needs_overlap (start : Date (R := Q)) (interval : Q)
    (n i : nat) (cur next : point Q) (acc : Q * Q) :
  (0 <= interval)%Q -> (i < n)%nat ->
  (Exact.Qmin (getTime (timestamp next)) (bucketEndTime start interval i)
   <= Exact.Qmax (getTime (timestamp cur)) (bucketStartTime start interval i)
   \/ getTime (timestamp next) <= getTime start
   \/ getTime start + inject_Z (Z.of_nat n) * interval <= getTime (timestamp cur)
   \/ getTime (timestamp next) <= getTime (timestamp cur))%Q ->
  contribute (bucketStartTime start interval i) (bucketEndTime start interval i)
    cur next acc = acc.
Proof.
  intros Hiv Hi H. apply contribute_nothing.
  set (bs := bucketStartTime start interval i).
  set (be := bucketEndTime start interval i).
  assert (Hbs : (getTime start <= bs)%Q).
  { unfold bs, bucketStartTime. cbn [add mul of_Z Exact.number].
    assert (0 <= inject_Z (Z.of_nat i) * interval)%Q
      by (apply Qmult_le_0_compat; [apply inject_Z_nonneg; lia | exact Hiv]).
    lra. }
  assert (Hbe : (be <= getTime start + inject_Z (Z.of_nat n) * interval)%Q).
  { unfold be, bucketEndTime, bucketStartTime. cbn [add mul of_Z Exact.number].
    assert (E : (inject_Z (Z.of_nat n)
                 == inject_Z (Z.of_nat i) + 1 + inject_Z (Z.of_nat (n - S i)))%Q).
    { change 1%Q with (inject_Z 1). rewrite <- !inject_Z_plus.
      apply inject_Z_injective. lia. }
    rewrite E.
    assert (0 <= inject_Z (Z.of_nat (n - S i)) * interval)%Q
      by (apply Qmult_le_0_compat; [apply inject_Z_nonneg; lia | exact Hiv]).
    lra. }
  pose proof (Qmin_spec (getTime (timestamp next)) be) as Hmin.
  pose proof (Qmax_spec (getTime (timestamp cur)) bs) as Hmax.
  fold bs be in H.
  set (mn := Exact.Qmin _ _) in *. set (mx := Exact.Qmax _ _) in *.
  clearbody mn mx bs be.
  destruct Hmin as [[? ->] | [? ->]], Hmax as [[? ->] | [? ->]],
    H as [H | [H | [H | H]]]; lra.
Qed.

Lemma contribution_needs_overlap_witness :
  contribute (R := Q)
    (bucketStartTime (R := Q) (Scenario.utc 10 0 0) 1800000%Q 0)
    (bucketEndTime (R := Q) (Scenario.utc 10 0 0) 1800000%Q 0)
    (at_ (Scenario.utc 10 0 0) 5) (at_ (Scenario.utc 10 0 0) 10) (0, 0)%Q
  = (0, 0)%Q.
Proof.
  apply (@contribution_needs_overlap (Scenario.utc 10 0 0) 1800000%Q 4 0).
  - discriminate.
  - lia.
  - right. right. right. discriminate.
Defined.

(** C8 fails for states that are ahead of the clock when the window is not a
    whole number of buckets.  With three hours at a point every two hours the
    second bucket runs from 11:00 to 13:00; the state interval from 12:10 to
    12:20 lies outside the window, which ends at 12:00, and adds its ten
    minutes at value 7 to that bucket, which comes out as 5.25 and not 5, in
    exact and in double arithmetic. *)
Lemma contribution_counterexample :
  statesWithEndpoints Scenario.now Scenario.ahead
  = [at_ (Scenario.utc 9 0 0) 5; at_ (Scenario.utc 12 10 0) 7;
     at_ (Scenario.utc 12 20 0) 9; pointQ Scenario.mockNow 9]
  /\ (inject_Z Scenario.mockNow
      <= getTime (timestamp (at_ (R := Q) (Scenario.utc 12 10 0) 7)))%Q
  /\ contribute (R := Q)
       (bucketStartTime (R := Q) (startTime Scenario.now (of_Z 3)) 7200000%Q 1)
       (bucketEndTime (R := Q) (startTime Scenario.now (of_Z 3)) 7200000%Q 1)
       (at_ (Scenario.utc 12 10 0) 7) (at_ (Scenario.utc 12 20 0) 9) (0, 0)%Q
     = (4200000, 600000)%Q
  /\ _downsampleHistory (num := Exact.number) Scenario.now Scenario.now
       Scenario.ahead (of_Z 3) (1 # 2)%Q = Returns Scenario.ahead_result
  /\ map (fun p => (timestamp p, Qred (value p))) Scenario.ahead_result
     = [(Scenario.utc 9 0 0, 5); (Scenario.utc 11 0 0, 5);
        (Scenario.utc 13 0 0, 21 # 4)]%Q
  /\ _downsampleHistory (num := Double.number) Scenario.now Scenario.now
       Scenario.ahead (of_Z 3) 0.5%float
     = Returns [pointD 1672563600000 5; pointD 1672570800000 5;
                pointD 1672578000000 5.25].
Proof.
  split; [reflexivity|]. split; [discriminate|].
  split; [reflexivity|]. split; [reflexivity|]. split; reflexivity.
Qed.

(** ** [setConfig] *)

Section SetConfig.
Import String.
Open Scope string_scope.
Variables (EntityConfig Options : Type) (entity_only : string -> EntityConfig).

Local Abbreviation config_t := (Card.BackgroundGraphEntitiesConfig EntityConfig Options).
Local Abbreviation card_t := (Card.card EntityConfig Options).

(** The timer set-up changes the timer and nothing else of the card. *)
Lemma setup_keeps_configuration (c : card_t) (w : Card.Window) :
  Card._config (fst (Card._setupUpdateInterval c w)) = Card._config c
  /\ Card._entities (fst (Card._setupUpdateInterval c w)) = Card._entities c
  /\ Card._history (fst (Card._setupUpdateInterval c w)) = Card._history c
  /\ Card._historyFetched (fst (Card._setupUpdateInterval c w)) = Card._historyFetched c.
Proof.
  unfold Card._setupUpdateInterval.
  destruct (Card._config c) as [cfg|] eqn:Ec; cbn [fst]; [|now rewrite ?Ec].
  destruct (Card.update_interval cfg) as [interval|]; cbn [fst]; [|now rewrite ?Ec].
  destruct (Qeq_bool interval 0); cbn; now rewrite ?Ec.
Qed.

(** C9: [setConfig] throws 'You need to define at least one entity' when the
    configuration is missing or its [entities] are missing, not an array or
    empty, and then leaves the card and the window as they were; with one
    entity or more it ends normally, and the card holds the configuration,
    its entities as objects, an empty history and [_historyFetched = false]. *)
Theorem setConfig_checks_entities (config : option config_t) (c : card_t) (w : Card.Window) :
  ((config = None
    \/ exists cfg, config = Some cfg
         /\ (Card.entities cfg = Card.Absent _
             \/ (exists t, Card.entities cfg = Card.NotAnArray _ t)
             \/ Card.entities cfg = Card.Entries []))
   -> Card.setConfig entity_only config c w
      = (Card.Throws "You need to define at least one entity", (c, w)))
  /\ (forall cfg e l,
        config = Some cfg -> Card.entities cfg = Card.Entries (e :: l) ->
        exists c' w',
          Card.setConfig entity_only config c w = (Card.Done tt, (c', w'))
          /\ Card._config c' = Some cfg
          /\ Card._entities c' = map (Card.normalise entity_only) (e :: l)
          /\ Card._history c' = []
          /\ Card._historyFetched c' = false).
Proof.
  split.
  - intros [-> | (cfg & -> & H)]; [reflexivity|].
    unfold Card.setConfig, Card.rejects.
    destruct H as [-> | [[t ->] | ->]]; cbn; try reflexivity.
    now destruct t.
  - intros cfg e l -> He. unfold Card.setConfig, Card.rejects. rewrite He. cbn [Card.truthy Card.isArray negb orb List.length Nat.eqb].
    match goal with
    | |- context [Card._setupUpdateInterval ?c1 w] =>
        pose proof (setup_keeps_configuration c1 w) as (H1 & H2 & H3 & H4);
        destruct (Card._setupUpdateInterval c1 w) as [c' w'] eqn:Es
    end.
    exists c', w'. cbn [fst] in *. cbn in H1, H2, H3, H4.
    repeat split; try assumption.
    rewrite H2. destruct cfg as [ents ui opts]. cbn in He. now subst ents.
Qed.

(** 'should throw an error if no entities are provided in config' *)
Example setConfig_no_entities (c : card_t) (w : Card.Window) (opts : Options) :
  Card.setConfig entity_only
    (Some {| Card.entities := Card.Entries []; Card.update_interval := None;
             Card.options := opts |}) c w
  = (Card.Throws "You need to define at least one entity", (c, w)).
Proof. reflexivity. Qed.
End SetConfig.

(** ** Exact arithmetic: the number of buckets *)

Section ExactCount.
Open Scope Q_scope.

Lemma Qtruncate_whole (x : Q) (z : Z) : x == inject_Z z -> Exact.Qtruncate x = z.
Proof.
  destruct x as [n d]. unfold Qeq, Exact.Qtruncate. simpl.
  intros H. rewrite Z.mul_1_r in H. subst n. apply Z.quot_mul. lia.
Qed.

(** In exact arithmetic, with a window of a whole number [ms] of
    milliseconds, the result is the anchor at [now - ms] with the value of
    [states[0]], and [ceil(hours * pointsPerHour)] buckets. *)
Lemma bucket_count_exact (endpoint now : Date (R := Q)) (states : list (point Q))
    (hours pointsPerHour : Q) (ms : Z) :
  0 < pointsPerHour -> states <> [] ->
  hours * inject_Z MS_IN_H == inject_Z ms ->
  exists l,
    _downsampleHistory endpoint now states hours pointsPerHour
    = Returns (pointQ (now - ms) (firstValue states) :: l)
    /\ List.length l = Z.to_nat (Qceiling (hours * pointsPerHour)).
Proof.
  intros Hp Hs Hms.
  destruct (@downsample_exact endpoint now states hours pointsPerHour Hp Hs)
    as (l & El & E).
  assert (Hstart : startTime now hours = (now - ms)%Z).
  { unfold startTime. cbn [new_Date sub mul getTime of_Z Exact.number].
    apply Qtruncate_whole. rewrite Hms. unfold Z.sub.
    rewrite inject_Z_plus, inject_Z_opp. reflexivity. }
  exists l. split.
  - rewrite E. unfold pointQ. now rewrite Hstart.
  - apply buckets_length in El. rewrite El, Hstart. f_equal.
    apply Qceiling_comp. unfold Z.sub. rewrite inject_Z_plus, inject_Z_opp, <- Hms.
    assert (~ inject_Z MS_IN_H == 0) by discriminate.
    field. split; [|assumption].
    intros H0. rewrite H0 in Hp. now apply Qlt_irrefl in Hp.
Qed.

(** A window that is not a whole number of milliseconds is widened by
    [new Date]: 0.36 ms at two buckets per millisecond make two buckets,
    where [ceil(hours * pointsPerHour)] is one. *)
Example bucket_count_clipped :
  List.length (run (_downsampleHistory (num := Exact.number) Scenario.now
                      Scenario.now Scenario.weighted (1 # 10000000) 7200000))
  = 3%nat
  /\ Qceiling ((1 # 10000000) * 7200000) = 1%Z.
Proof. split; reflexivity. Qed.
End ExactCount.

(** ** Exact arithmetic: the buckets without a state interval come first *)

Section ExactCoverage.
Open Scope Q_scope.

Lemma contribute_grows bs be (cur next : point Q) acc :
  snd acc <= snd (contribute bs be cur next acc).
Proof.
  unfold contribute. destruct acc as [ws tot].
  destruct (ltb _ _) eqn:E; cbn [snd]; [|apply Qle_refl].
  apply Qltb_true in E. cbn [add sub Exact.number]. lra.
Qed.

Lemma weigh_grows bs be (sw : list (point Q)) : forall acc,
  snd acc <= snd (weigh bs be sw acc).
Proof.
  induction sw as [|cur rest IH]; intros acc; cbn [weigh]; [apply Qle_refl|].
  destruct rest as [|next rest']; [apply Qle_refl|].
  eapply Qle_trans; [apply (contribute_grows bs be cur next)|apply IH].
Qed.

(** A bucket with a positive total duration has a state that begins before
    its end. *)
Lemma weigh_positive_early bs be (sw : list (point Q)) : forall acc,
  snd acc < snd (weigh bs be sw acc) -> forall x, be <= x -> early x sw.
Proof.
  induction sw as [|cur rest IH]; intros acc H x Hx; cbn [weigh] in H.
  - now apply Qlt_irrefl in H.
  - destruct rest as [|next rest']; [now apply Qlt_irrefl in H|].
    cbn [early]. unfold contribute in H. destruct acc as [ws tot].
    destruct (ltb _ _) eqn:E.
    + left. apply Qltb_true in E. cbn [Math_max Math_min Exact.number] in E.
      destruct (Qmax_spec (getTime (timestamp cur)) bs) as [[? Emax] | [? Emax]],
               (Qmin_spec (getTime (timestamp next)) be) as [[? Emin] | [? Emin]];
        rewrite Emax, Emin in E; lra.
    + right. eapply IH; eassumption.
Qed.

(** A bucket that begins at [x], between an early state and the last one,
    has a positive total duration. *)
Lemma weigh_crossing x be (sw : list (point Q)) :
  x < be ->
  forall acc last,
    early x sw -> pop sw = Some last -> x < getTime (timestamp last) ->
    snd acc < snd (weigh x be sw acc).
Proof.
  intros Hbe. induction sw as [|cur rest IH]; intros acc last He Hl Hx; [destruct He|].
  destruct rest as [|next rest']; [destruct He|].
  change (weigh x be (cur :: next :: rest') acc)
    with (weigh x be (next :: rest') (contribute x be cur next acc)).
  change (pop (cur :: next :: rest')) with (pop (next :: rest')) in Hl.
  pose proof (contribute_grows x be cur next acc) as Hg.
  cbn [early] in He.
  assert (Hrest : early x (next :: rest') ->
                  snd acc < snd (weigh x be (next :: rest') (contribute x be cur next acc))).
  { intros He'. eapply Qle_lt_trans; [exact Hg|]. eapply IH; eassumption. }
  destruct He as [Hcur | He']; [|now apply Hrest].
  destruct (Qlt_le_dec x (getTime (timestamp next))) as [Hn | Hn].
  - eapply Qlt_le_trans; [|apply weigh_grows].
    unfold contribute. destruct acc as [ws tot].
    assert (E : Math_max (getTime (timestamp cur)) x
                < Math_min (getTime (timestamp next)) be).
    { change (Exact.Qmax (getTime (timestamp cur)) x
              < Exact.Qmin (getTime (timestamp next)) be).
      destruct (Qmax_spec (getTime (timestamp cur)) x) as [[? ->] | [? ->]],
               (Qmin_spec (getTime (timestamp next)) be) as [[? ->] | [? ->]]; lra. }
    pose proof E as E'. apply Qltb_true in E'.
    change (Exact.Qltb ?a ?b) with (ltb a b) in E'. rewrite E'.
    cbn [snd]. set (d := sub _ _).
    assert (0 < d) by (unfold d; change (0 < Math_min (getTime (timestamp next)) be
                                          - Math_max (getTime (timestamp cur)) x); lra).
    change (tot < tot + d). lra.
  - apply Hrest. destruct rest' as [|n2 r2].
    + cbn in Hl. injection Hl as <-. lra.
    + cbn [early]. now left.
Qed.

Variables (now : Date (R := Q)) (states : list (point Q)).
Variables (start : Date (R := Q)) (interval : Q).
Hypothesis interval_positive' : 0 < interval.

Local Abbreviation sw := (statesWithEndpoints now states).
Local Abbreviation total i := (snd (sums sw start interval i)).

(** A bucket after one with a positive total duration, if it begins before
    [now], has a positive total duration too. *)
Lemma nonempty_stays j :
  bucketStartTime start interval (S j) < inject_Z now ->
  0 < total j -> 0 < total (S j).
Proof.
  intros Hnow Hj. unfold sums in *.
  assert (Hbe : bucketStartTime start interval (S j)
                < bucketEndTime start interval (S j)).
  { unfold bucketEndTime. cbn [add Exact.number]. lra. }
  assert (He : early (bucketStartTime start interval (S j)) sw).
  { eapply weigh_positive_early with (acc := (zero (R := Q), zero (R := Q)));
      [exact Hj|].
    unfold bucketEndTime, bucketStartTime. cbn [add mul of_Z getTime Exact.number].
    rewrite Nat2Z.inj_succ, <- Z.add_1_r, inject_Z_plus. change (inject_Z 1) with 1. lra. }
  exact (@weigh_crossing _ _ sw Hbe (zero, zero) _ He (pop_app states _) Hnow).
Qed.

Lemma bucket_begins_before_now j :
  (j < Z.to_nat (Qceiling ((inject_Z now - inject_Z start) / interval)))%nat ->
  bucketStartTime start interval j < inject_Z now.
Proof.
  intros Hj. set (ratio := (inject_Z now - inject_Z start) / interval) in *.
  assert (Hc : (Z.of_nat j <= Qceiling ratio - 1)%Z) by lia.
  rewrite Zle_Qle in Hc. pose proof (Qceiling_lt ratio) as Hlt.
  assert (Hr : ratio * interval == inject_Z now - inject_Z start).
  { unfold ratio. field. intros H0. rewrite H0 in interval_positive'.
    now apply Qlt_irrefl in interval_positive'. }
  unfold bucketStartTime. cbn [add mul of_Z getTime Exact.number].
  assert (inject_Z (Z.of_nat j) * interval < ratio * interval)
    by (apply Qmult_lt_compat_r; [assumption | lra]).
  lra.
Qed.

Lemma nonempty_onwards n j k :
  (n = Z.to_nat (Qceiling ((inject_Z now - inject_Z start) / interval)))%nat ->
  (j + k < n)%nat -> 0 < total j -> 0 < total (j + k).
Proof.
  intros Hn. induction k as [|k IH]; intros Hk Hj.
  - now rewrite Nat.add_0_r.
  - rewrite Nat.add_succ_r. apply nonempty_stays.
    + apply bucket_begins_before_now. rewrite <- Hn. lia.
    + apply IH; [lia | exact Hj].
Qed.
End ExactCoverage.

(** In exact arithmetic, when the two reads of the clock agree, a bucket
    without a positive total duration has the value of the element before
    it: such buckets only come first, and all take the anchor's value. *)
Lemma carry_forward_exact (now : Date (R := Q)) (states : list (point Q))
    (hours pointsPerHour : Q) :
  (0 < pointsPerHour)%Q -> states <> [] ->
  exists r,
    _downsampleHistory now now states hours pointsPerHour = Returns r
    /\ forall i q p,
        nth_error r i = Some q -> nth_error r (S i) = Some p ->
        ltb zero (snd (sums (statesWithEndpoints now states) (startTime now hours)
                         (inject_Z MS_IN_H / pointsPerHour)%Q i)) = false ->
        value p = value q.
Proof.
  intros Hp Hs.
  destruct (@downsample_exact now now states hours pointsPerHour Hp Hs)
    as (l & El & E).
  eexists. split; [exact E|].
  pose proof (interval_positive Hp) as Hiv.
  set (iv := (inject_Z MS_IN_H / pointsPerHour)%Q) in *.
  set (start := startTime now hours) in *.
  set (n := Z.to_nat _) in El.
  pose proof (buckets_length _ _ _ _ _ _ _ El) as Hlen.
  assert (Hempty : forall i, (i < n)%nat ->
            ltb zero (snd (sums (statesWithEndpoints now states) start iv i)) = false ->
            forall j, (j <= i)%nat ->
            ltb zero (snd (sums (statesWithEndpoints now states) start iv j)) = false).
  { intros i Hi Hz j Hj.
    destruct (ltb zero (snd (sums (statesWithEndpoints now states) start iv j))) eqn:Ej;
      [|reflexivity].
    apply Qltb_true in Ej.
    apply (@nonempty_onwards now states start iv Hiv n j (i - j) eq_refl) in Ej; [|lia].
    replace (j + (i - j))%nat with i in Ej by lia.
    apply Qltb_false in Hz. exfalso.
    exact (Qlt_irrefl _ (Qlt_le_trans _ _ _ Ej Hz)). }
  assert (Hfirst : forall i p, nth_error l i = Some p ->
            ltb zero (snd (sums (statesWithEndpoints now states) start iv i)) = false ->
            value p = firstValue states).
  { intros i p Hi Hz.
    assert (i < n)%nat by (rewrite <- Hlen; apply nth_error_Some; congruence).
    erewrite buckets_carry with (i := 0%nat) (j := i); [|exact El|..]; try eassumption.
    apply lastValue_before_untouched. intros j Hj. apply (Hempty i); trivial. lia. }
  intros i q p Hq Hpp Hz. cbn [nth_error] in Hpp.
  rewrite (Hfirst i p Hpp Hz).
  destruct i as [|i]; cbn [nth_error] in Hq.
  - injection Hq as <-. reflexivity.
  - symmetry. apply (Hfirst i q Hq).
    assert (S i < n)%nat by (rewrite <- Hlen; apply nth_error_Some; congruence).
    apply (Hempty (S i)); trivial. lia.
Qed.

(** * Further properties of the downsampler *)

(** X1: in every arithmetic, a call past the guard that returns gives the
    anchor, stamped with the start of the window and holding the value of
    [states[0]], and then one bucket per round of the loop, the bucket of
    round [i] stamped [new Date(startTime + (i + 1) * interval)]. *)
Theorem result_is_anchor_and_buckets {R : Type} {num : Number R}
    (endpoint now : Date) (states : list (point R)) (hours pointsPerHour : R)
    (r : list (point R)) :
  leb pointsPerHour zero = false -> states <> [] ->
  _downsampleHistory endpoint now states hours pointsPerHour = Returns r ->
  exists interval ratio n anchor,
    divide (of_Z MS_IN_H) pointsPerHour = Returns interval
    /\ divide (sub (getTime now) (getTime (startTime now hours))) interval
       = Returns ratio
    /\ iterations (Math_ceil ratio) = Some n
    /\ List.length r = S n
    /\ nth_error r 0 = Some anchor
    /\ timestamp anchor = startTime now hours
    /\ value anchor = firstValue states
    /\ map timestamp r
       = startTime now hours
         :: map (bucketTimestamp (startTime now hours) interval) (seq 0 n).
Proof.
  intros Hp Hs E.
  apply downsample_returns in E as (iv & ratio & n & l & Ei & Er & En & El & ->);
    trivial.
  exists iv, ratio, n, (Point (startTime now hours) (firstValue states)).
  repeat split; trivial.
  - cbn [List.length]. f_equal. eapply buckets_length. exact El.
  - cbn [map timestamp]. f_equal. eapply buckets_timestamps. exact El.
Qed.

Lemma result_is_anchor_and_buckets_witness :
  exists interval ratio n anchor,
    divide (of_Z MS_IN_H) (of_Z 47 : float) = Returns interval
    /\ divide (sub (getTime (Scenario.now (R := float)))
                 (getTime (startTime Scenario.now (of_Z 1)))) interval
       = Returns ratio
    /\ iterations (Math_ceil ratio) = Some n
    /\ List.length Scenario.late_result = S n
    /\ nth_error Scenario.late_result 0 = Some anchor
    /\ timestamp anchor = startTime Scenario.now (of_Z 1)
    /\ value anchor = firstValue Scenario.late_change
    /\ map timestamp Scenario.late_result
       = startTime Scenario.now (of_Z 1)
         :: map (bucketTimestamp (startTime Scenario.now (of_Z 1)) interval) (seq 0 n).
Proof.
  apply (@result_is_anchor_and_buckets float Double.number Scenario.now Scenario.now
           Scenario.late_change (of_Z 1) (of_Z 47) Scenario.late_result).
  - reflexivity.
  - discriminate.
  - reflexivity.
Defined.

(** ** Double arithmetic: the durations on whole milliseconds *)

Section WholeBuckets.
Open Scope Z_scope.
Local Abbreviation dbl := Double.from_Z.
Variables (s w : Z).
Hypothesis start_at_or_after_epoch : 0 <= s.
Hypothesis whole_interval : 1 <= w.

Lemma bucketStartTime_whole (i : nat) :
  s + (Z.of_nat i + 1) * w <= 8640000000000000 ->
  bucketStartTime (R := float) (dbl s) (dbl w) i = dbl (s + Z.of_nat i * w).
Proof.
  intros H. unfold bucketStartTime.
  cbn [getTime add mul of_Z Double.number].
  assert (H53 : 8640000000000000 < 2 ^ 53) by reflexivity.
  assert (Hi : 0 <= Z.of_nat i) by lia.
  rewrite (@mul_whole (Z.of_nat i) w) by (unfold safe; nia).
  apply add_whole; unfold safe; nia.
Qed.

Lemma bucketEndTime_whole (i : nat) :
  s + (Z.of_nat i + 1) * w <= 8640000000000000 ->
  bucketEndTime (R := float) (dbl s) (dbl w) i = dbl (s + (Z.of_nat i + 1) * w).
Proof.
  intros H. unfold bucketEndTime. rewrite bucketStartTime_whole by trivial.
  cbn [add Double.number].
  assert (H53 : 8640000000000000 < 2 ^ 53) by reflexivity.
  assert (Hi : 0 <= Z.of_nat i) by lia.
  rewrite add_whole by (unfold safe; nia).
  f_equal; lia.
Qed.

(** The total duration of a bucket, for states on whole milliseconds in
    time order up to the virtual last state. *)
Lemma sums_on_whole_ms (states : list (point float)) (t0 : Z) (stamps : list Z)
    (e : Z) (i : nat) :
  map timestamp states = map dbl (t0 :: stamps) ->
  StronglySorted Z.le (t0 :: stamps ++ [e]) ->
  - 8640000000000000 <= t0 -> e <= 8640000000000000 ->
  s + (Z.of_nat i + 1) * w <= 8640000000000000 ->
  snd (sums (statesWithEndpoints (R := float) (dbl e) states) (dbl s) (dbl w) i)
  = dbl (shared (s + Z.of_nat i * w) (s + (Z.of_nat i + 1) * w) t0 e).
Proof.
  intros Hst Hsorted Ht0 He Hi.
  assert (H53 : 8640000000000000 < 2 ^ 53) by reflexivity.
  assert (Hn : 0 <= Z.of_nat i) by lia.
  unfold sums. rewrite bucketStartTime_whole, bucketEndTime_whole by trivial.
  set (bs := s + Z.of_nat i * w). set (be := s + (Z.of_nat i + 1) * w).
  assert (Hbs : 0 <= bs) by (unfold bs; nia).
  assert (Hbe : be = bs + w) by (unfold bs, be; lia).
  assert (Hsh : shared bs be t0 (last (stamps ++ [e]) t0)
                = total_shared bs be (t0 :: stamps ++ [e])).
  { symmetry. apply total_shared_ordered; [lia|exact Hsorted]. }
  rewrite last_last in Hsh.
  assert (Hle : shared bs be t0 e <= w) by (unfold shared; lia).
  pose proof (shared_nonneg bs be t0 e) as Hge.
  assert (Hall : Forall safe (t0 :: stamps ++ [e])).
  { assert (Hlast : t0 <= e).
    { pose proof (sorted_last _ _ Hsorted) as Hl. now rewrite last_last in Hl. }
    inversion Hsorted as [|? ? Hs' Hfirst]; subst.
    constructor; [unfold safe; lia|].
    apply Forall_forall. intros x Hx.
    rewrite Forall_forall in Hfirst. pose proof (Hfirst x Hx) as Hlo.
    assert (Hhi : x <= e).
    { pose proof (sorted_in_last _ t0 x Hsorted (or_intror Hx)) as Hl.
      now rewrite last_last in Hl. }
    unfold safe; lia. }
  change (@zero float Double.number) with (dbl 0).
  rewrite (weigh_on_whole_ms bs be)
    with (stamps := t0 :: stamps ++ [e]); trivial; try (unfold safe; lia).
  - cbn [Z.add]. f_equal. now rewrite Hsh.
  - unfold statesWithEndpoints. rewrite map_app, Hst. cbn [map timestamp].
    now rewrite map_app.
Qed.
End WholeBuckets.

Section EmptyBuckets.
Context {R : Type} {num : Number R}.
Variables (states sw : list (point R)) (start : Date) (interval lastValue0 : R).

End EmptyBuckets.

(** The window of [h] whole hours with [k] points per hour, [k] a divisor
    of 3600000, as the doubles compute it. *)
Lemma whole_hours_window (t h k : Z) :
  (0 <= h)%Z -> (1 <= k)%Z -> (k | 3600000)%Z ->
  (0 <= t - h * 3600000)%Z -> (t <= 8640000000000000)%Z ->
  (1 <= 3600000 / k)%Z /\ (3600000 / k * k = 3600000)%Z
  /\ leb (of_Z k : float) zero = false
  /\ PrimFloat.div (of_Z MS_IN_H) (of_Z k) = of_Z (3600000 / k)
  /\ startTime (num := Double.number) (of_Z t) (of_Z h) = of_Z (t - h * 3600000)
  /\ iterations (numBuckets (of_Z t) (of_Z h) (of_Z k)) = Some (Z.to_nat (h * k)).
Proof.
  intros Hh Hk [q Hq] Hstart0 Ht.
  assert (H53 : (8640000000000000 < 2 ^ 53)%Z) by reflexivity.
  set (w := (3600000 / k)%Z).
  assert (Ew : w = q) by (unfold w; rewrite Hq; apply Z.div_mul; lia).
  assert (Hwk : (w * k = 3600000)%Z) by lia.
  assert (Hw1 : (1 <= w)%Z) by nia.
  set (s := (t - h * 3600000)%Z).
  assert (Hw : PrimFloat.div (of_Z MS_IN_H) (of_Z k) = of_Z w).
  { change (PrimFloat.div (Double.from_Z 3600000) (Double.from_Z k) = Double.from_Z w).
    rewrite <- Hwk at 1. apply div_whole; unfold safe; lia. }
  assert (Hst : startTime (num := Double.number) (of_Z t) (of_Z h) = of_Z s).
  { unfold startTime.
    change (Double.TimeClip
              (PrimFloat.sub (Double.from_Z t)
                 (PrimFloat.mul (Double.from_Z h) (Double.from_Z 3600000)))
            = Double.from_Z s).
    rewrite mul_whole by (unfold safe; lia).
    rewrite sub_whole by (unfold safe; lia).
    apply TimeClip_whole. unfold s. lia. }
  split; [exact Hw1|]. split; [exact Hwk|]. split; [|split; [exact Hw|split; [exact Hst|]]].
  - change (PrimFloat.leb (Double.from_Z k) (Double.from_Z 0) = false).
    rewrite leb_whole by (unfold safe; lia). apply Z.leb_gt. lia.
  - unfold numBuckets. rewrite Hst, Hw.
    change (Double.rounds
              (Double.ceil
                 (PrimFloat.div (PrimFloat.sub (Double.from_Z t) (Double.from_Z s))
                    (Double.from_Z w)))
            = Some (Z.to_nat (h * k))).
    rewrite sub_whole by (unfold safe, s; lia).
    replace (t - s)%Z with (h * k * w)%Z by (unfold s; nia).
    rewrite div_whole by (unfold safe; nia).
    rewrite ceil_whole by (unfold safe; nia).
    apply rounds_whole. unfold safe; nia.
Qed.

(** Whole hours and a whole number of points per hour that divides 3600000:
    every number the method computes on the way to its timestamps is a whole
    number below 2^53, and the doubles compute with those as the integers
    do. *)
Lemma grid_of_whole_hours (endpoint : Date (R := float))
    (states : list (point float)) (t h k : Z) :
  states <> [] -> (0 <= h)%Z -> (1 <= k)%Z -> (k | 3600000)%Z ->
  (0 <= t - h * 3600000)%Z -> (t <= 8640000000000000)%Z ->
  exists r,
    _downsampleHistory (num := Double.number) endpoint (of_Z t) states
      (of_Z h) (of_Z k) = Returns r
    /\ List.length r = S (Z.to_nat (h * k))
    /\ map timestamp r
       = map (fun i => of_Z (t - h * 3600000 + Z.of_nat i * (3600000 / k))%Z)
           (seq 0 (S (Z.to_nat (h * k))))
    /\ option_map timestamp (nth_error r (Z.to_nat (h * k))) = Some (of_Z t).
Proof.
  intros Hs Hh Hk Hdiv Hstart0 Ht.
  destruct (@whole_hours_window t h k Hh Hk Hdiv Hstart0 Ht)
    as (Hw1 & Hwk & Hp & Hw & Hst & Hn).
  assert (H53 : (8640000000000000 < 2 ^ 53)%Z) by reflexivity.
  set (w := (3600000 / k)%Z) in *.
  set (s := (t - h * 3600000)%Z) in *.
  assert (Hhk : Z.of_nat (Z.to_nat (h * k)) = (h * k)%Z) by (apply Z2Nat.id; nia).
  destruct (@whole_ms_timestamps endpoint (of_Z t) states (of_Z h) (of_Z k) s w
              (Z.to_nat (h * k)) Hp Hs Hw Hw1 Hst Hstart0)
    as (r & E & Hts); trivial.
  { rewrite Hhk. unfold s. nia. }
  exists r. split; [exact E|].
  assert (Hlen : List.length r = S (Z.to_nat (h * k))).
  { rewrite <- (length_map timestamp), Hts, length_map. apply length_seq. }
  split; [exact Hlen|]. split; [exact Hts|].
  destruct (nth_error r (Z.to_nat (h * k))) as [p|] eqn:Ep;
    [|apply nth_error_None in Ep; lia].
  cbn [option_map]. f_equal.
  apply (map_nth_error timestamp) in Ep. rewrite Hts in Ep.
  apply nth_error_map_seq in Ep as [_ ->].
  rewrite Hhk. replace (s + h * k * w)%Z with t by (unfold s; nia). reflexivity.
Qed.



(** X17: in double arithmetic, for a window that starts at the whole
    millisecond [s >= 0] with buckets of [w >= 1] whole milliseconds, and
    states stamped on whole milliseconds in time order up to the virtual
    last state at [e], [totalDurationInBucket] of bucket [i] is exactly the
    number of milliseconds that the bucket from [s + i * w] to
    [s + (i + 1) * w] shares with the span from the first state to [e]. *)
Theorem total_duration_is_the_overlap (states : list (point float))
    (t0 : Z) (stamps : list Z) (e s w : Z) (i : nat) :
  map timestamp states = map of_Z (t0 :: stamps) ->
  StronglySorted Z.le (t0 :: stamps ++ [e]) ->
  (- 8640000000000000 <= t0)%Z -> (e <= 8640000000000000)%Z ->
  (0 <= s)%Z -> (1 <= w)%Z ->
  (s + (Z.of_nat i + 1) * w <= 8640000000000000)%Z ->
  snd (sums (statesWithEndpoints (num := Double.number) (of_Z e) states)
         (of_Z s) (of_Z w) i)
  = of_Z (Z.max 0 (Z.min e (s + (Z.of_nat i + 1) * w)
                   - Z.max t0 (s + Z.of_nat i * w))).
Proof.
  intros Hst Hsorted Ht0 He Hs Hw Hi.
  exact (@sums_on_whole_ms s w Hs Hw states t0 stamps e i Hst Hsorted Ht0 He Hi).
Qed.

Lemma total_duration_is_the_overlap_witness :
  snd (sums (statesWithEndpoints (num := Double.number)
               (of_Z Scenario.mockNow) Scenario.late_change)
         (of_Z (Scenario.utc 10 0 0)) (of_Z 1800000) 2)
  = of_Z 1800000.
Proof.
  apply (@total_duration_is_the_overlap Scenario.late_change
           (Scenario.utc 11 0 0) [Scenario.utc 11 59 0] Scenario.mockNow
           (Scenario.utc 10 0 0) 1800000 2).
  - reflexivity.
  - repeat constructor; unfold Scenario.utc, Scenario.mockNow; lia.
  - unfold Scenario.utc; lia.
  - unfold Scenario.mockNow; lia.
  - unfold Scenario.utc; lia.
  - lia.
  - unfold Scenario.utc; cbn; lia.
Defined.




(** * The colours of the dots and of the line *)

Section Thresholds.
Open Scope Q_scope.

Local Abbreviation below := (fun a b => Appearance.value a <= Appearance.value b).

Lemma insert_perm t l : Permutation (Appearance.insert t l) (t :: l).
Proof.
  induction l as [|u rest IH]; cbn [Appearance.insert]; [reflexivity|].
  destruct (Qle_bool _ _); [reflexivity|].
  rewrite IH. apply perm_swap.
Qed.

Lemma sort_perm l : Permutation (Appearance.sort l) l.
Proof.
  induction l as [|t rest IH]; cbn [Appearance.sort fold_right]; [reflexivity|].
  fold (Appearance.sort rest). rewrite insert_perm. now constructor.
Qed.

Lemma insert_sorted t l :
  StronglySorted below l -> StronglySorted below (Appearance.insert t l).
Proof.
  induction 1 as [|u rest Hs IH Hu]; cbn [Appearance.insert].
  - repeat constructor.
  - destruct (Qle_bool _ _) eqn:E.
    + apply Qle_bool_iff in E. constructor; [now constructor|].
      constructor; [exact E|].
      eapply Forall_impl; [|exact Hu]. intros a Ha. cbn in *. lra.
    + apply Qleb_false in E. constructor; [exact IH|].
      eapply Permutation_Forall; [symmetry; apply insert_perm|].
      constructor; [cbn; lra | exact Hu].
Qed.

Lemma sort_sorted l : StronglySorted below (Appearance.sort l).
Proof.
  induction l as [|t rest IH]; cbn [Appearance.sort fold_right]; [constructor|].
  now apply insert_sorted.
Qed.

(** The loop, on sorted thresholds: the colour of a greatest threshold at or
    below [v], or the colour it began with when all are above [v]. *)
Lemma scan_sorted v l : forall c,
  StronglySorted below l ->
  (exists t, In t l /\ Appearance.scan v c l = Appearance.color t
             /\ Appearance.value t <= v
             /\ forall u, In u l -> Appearance.value u <= v ->
                          Appearance.value u <= Appearance.value t)
  \/ (Appearance.scan v c l = c /\ forall u, In u l -> v < Appearance.value u).
Proof.
  induction l as [|t rest IH]; intros c Hs; cbn [Appearance.scan].
  - right. split; [reflexivity | intros u []].
  - inversion Hs as [|? ? Hrest Ht]; subst.
    destruct (Qle_bool (Appearance.value t) v) eqn:E.
    + apply Qle_bool_iff in E. left.
      destruct (IH (Appearance.color t) Hrest)
        as [(t2 & Hin & Hc & Hv & Hmax) | [Hc Hall]].
      * exists t2. repeat split; trivial; [now right|].
        intros u [<- | Hu] Huv; [|now apply Hmax].
        rewrite Forall_forall in Ht. now apply Ht.
      * exists t. repeat split; trivial; [now left|].
        intros u [<- | Hu] Huv; [apply Qle_refl|].
        specialize (Hall u Hu). lra.
    + apply Qleb_false in E. right. split; [reflexivity|].
      intros u [<- | Hu]; [exact E|].
      rewrite Forall_forall in Ht. specialize (Ht u Hu). cbn in Ht. lra.
Qed.

Lemma sorted_head_least l t rest :
  Appearance.sort l = t :: rest ->
  forall u, In u l -> Appearance.value t <= Appearance.value u.
Proof.
  intros E u Hu. pose proof (sort_sorted l) as Hs. rewrite E in Hs.
  inversion Hs as [|? ? _ Ht]; subst.
  apply (Permutation_in _ (Permutation_sym (sort_perm l))) in Hu. rewrite E in Hu.
  destruct Hu as [<- | Hu]; [apply Qle_refl|].
  rewrite Forall_forall in Ht. now apply Ht.
Qed.
End Thresholds.

Lemma dot_color_choice (darkMode : bool) (config : Appearance.Config.t)
    (v : Q) (entityConfig : option Appearance.Entity.t)
    (thresholds : list Appearance.ColorThreshold) :
  Appearance.dot_thresholds config entityConfig = Some thresholds ->
  thresholds <> [] ->
  exists t,
    In t thresholds
    /\ Appearance._getDotColor darkMode config v entityConfig = Appearance.color t
    /\ ((Appearance.value t <= v
         /\ forall u, In u thresholds -> Appearance.value u <= v ->
                      Appearance.value u <= Appearance.value t)
        \/ ((forall u, In u thresholds -> v < Appearance.value u)
            /\ forall u, In u thresholds ->
                         Appearance.value t <= Appearance.value u))%Q.
Proof.
  intros Hth Hne. unfold Appearance._getDotColor. rewrite Hth.
  destruct thresholds as [|t0 rest0]; [congruence|]. cbv beta iota zeta.
  set (th := t0 :: rest0) in *.
  destruct (Appearance.sort th) as [|lowest rest] eqn:Es.
  - pose proof (sort_perm th) as Hp. rewrite Es in Hp.
    apply Permutation_nil in Hp. discriminate.
  - rewrite <- Es.
    assert (Hin : forall u, In u (Appearance.sort th) <-> In u th).
    { intros u. split; apply Permutation_in;
        [apply sort_perm | apply Permutation_sym, sort_perm]. }
    destruct (scan_sorted v (Appearance.color lowest) (sort_sorted th))
      as [(t & Ht & Hc & Hv & Hmax) | [Hc Hall]].
    + exists t. split; [now apply Hin|]. split; [exact Hc|]. left.
      split; [exact Hv|]. intros u Hu. apply Hmax. now apply Hin.
    + exists lowest. split; [apply Hin; rewrite Es; now left|].
      split; [exact Hc|]. right. split.
      * intros u Hu. apply Hall. now apply Hin.
      * now apply (sorted_head_least th Es).
Qed.

(** X6: with thresholds, the colour of a dot is the colour of a threshold
    with the greatest value at or below the dot's value, and the colour of a
    threshold with the least value when the dot is below them all. *)
Theorem dot_color_of_thresholds (darkMode : bool) (config : Appearance.Config.t)
    (v : Q) (entityConfig : option Appearance.Entity.t)
    (thresholds : list Appearance.ColorThreshold) :
  Appearance.dot_thresholds config entityConfig = Some thresholds ->
  thresholds <> [] ->
  exists t,
    In t thresholds
    /\ Appearance._getDotColor darkMode config v entityConfig = Appearance.color t
    /\ ((Appearance.value t <= v
         /\ forall u, In u thresholds -> Appearance.value u <= v ->
                      Appearance.value u <= Appearance.value t)
        \/ ((forall u, In u thresholds -> v < Appearance.value u)
            /\ forall u, In u thresholds ->
                         Appearance.value t <= Appearance.value u))%Q.
Proof.
  intros Hth Hne.
  destruct (dot_color_choice darkMode config v entityConfig Hth Hne)
    as (t & Hin & Hc & Hcase).
  exists t. auto.
Qed.

Lemma dot_color_of_thresholds_witness :
  exists t,
    In t Appearance.traffic_lights
    /\ Appearance._getDotColor false (Appearance.card_look (Some Appearance.traffic_lights) None) (25 # 1) None
       = Appearance.color t
    /\ ((Appearance.value t <= 25 # 1
         /\ forall u, In u Appearance.traffic_lights -> Appearance.value u <= 25 # 1 ->
                      Appearance.value u <= Appearance.value t)
        \/ ((forall u, In u Appearance.traffic_lights -> 25 # 1 < Appearance.value u)
            /\ forall u, In u Appearance.traffic_lights ->
                         Appearance.value t <= Appearance.value u))%Q.
Proof.
  apply (@dot_color_of_thresholds false (Appearance.card_look (Some Appearance.traffic_lights) None)
           (25 # 1) None Appearance.traffic_lights).
  - reflexivity.
  - discriminate.
Defined.

Section DotColours.
Import String.
Local Open Scope string_scope.

Example dot_colors :
  map (fun v => Appearance._getDotColor false
                  (Appearance.card_look (Some Appearance.traffic_lights) None) v None)
      [-5; 0; 19; 20; 25; 30; 99]%Q
  = ["blue"; "blue"; "blue"; "green"; "green"; "red"; "red"].
Proof. reflexivity. Qed.
End DotColours.

(** X7: the colour of a dot does not depend on the order in which the
    thresholds are written, when no two of them have the same value. *)
Theorem dot_color_order_free (darkMode : bool) (config1 config2 : Appearance.Config.t)
    (v : Q) (entity1 entity2 : option Appearance.Entity.t)
    (thresholds1 thresholds2 : list Appearance.ColorThreshold) :
  Appearance.dot_thresholds config1 entity1 = Some thresholds1 ->
  Appearance.dot_thresholds config2 entity2 = Some thresholds2 ->
  thresholds1 <> [] ->
  Permutation thresholds1 thresholds2 ->
  ForallOrdPairs (fun a b => ~ (Appearance.value a == Appearance.value b)%Q)
    thresholds1 ->
  Appearance._getDotColor darkMode config1 v entity1
  = Appearance._getDotColor darkMode config2 v entity2.
Proof.
  intros H1 H2 Hne Hp Hd.
  assert (Hne2 : thresholds2 <> []).
  { intros ->. apply Permutation_sym, Permutation_nil in Hp. contradiction. }
  destruct (dot_color_choice darkMode config1 v entity1 H1 Hne)
    as (t1 & Hin1 & -> & Hc1).
  destruct (dot_color_choice darkMode config2 v entity2 H2 Hne2)
    as (t2 & Hin2 & -> & Hc2).
  assert (Hin2' : In t2 thresholds1)
    by (eapply Permutation_in; [apply Permutation_sym; exact Hp | exact Hin2]).
  assert (Hmem : forall u, In u thresholds2 -> In u thresholds1)
    by (intros u; apply Permutation_in, Permutation_sym, Hp).
  assert (Hmem' : forall u, In u thresholds1 -> In u thresholds2)
    by (intros u; apply Permutation_in, Hp).
  assert (E : (Appearance.value t1 == Appearance.value t2)%Q).
  { destruct Hc1 as [[Hv1 Hm1] | [Ha1 Hl1]], Hc2 as [[Hv2 Hm2] | [Ha2 Hl2]].
    - apply Qle_antisym; [apply Hm2; auto | apply Hm1; auto].
    - specialize (Ha2 t1 (Hmem' _ Hin1)). lra.
    - specialize (Ha1 t2 Hin2'). lra.
    - apply Qle_antisym; [apply Hl1; auto | apply Hl2; auto]. }
  destruct (ForallOrdPairs_In Hd t1 t2 Hin1 Hin2') as [-> | [H | H]];
    [reflexivity | contradiction | symmetry in E; contradiction].
Qed.

Lemma dot_color_order_free_witness :
  Appearance._getDotColor false (Appearance.card_look (Some Appearance.traffic_lights) None) (25 # 1) None
  = Appearance._getDotColor false (Appearance.card_look (Some (rev Appearance.traffic_lights)) None)
      (25 # 1) None.
Proof.
  apply (@dot_color_order_free false (Appearance.card_look (Some Appearance.traffic_lights) None)
           (Appearance.card_look (Some (rev Appearance.traffic_lights)) None) (25 # 1) None None
           Appearance.traffic_lights (rev Appearance.traffic_lights)).
  - reflexivity.
  - reflexivity.
  - discriminate.
  - apply Permutation_rev.
  - repeat constructor; discriminate.
Defined.


Section StrokeWitness.
Import String.
Local Open Scope string_scope.


(** The configuration left out: the line is grey, the dot at 25 is green. *)
Example stroke_and_dots_differ :
  Appearance._setupGradient false
    (Appearance.card_look (Some Appearance.traffic_lights) (Some "grey"))
    (fun y => y) "bge-gradient-sensor.test"
    (Some (Appearance.entity_look true None None))
  = Some (None, "grey")
  /\ Appearance._getDotColor false
       (Appearance.card_look (Some Appearance.traffic_lights) (Some "grey")) (25 # 1)
       (Some (Appearance.entity_look true None None))
     = "green".
Proof. split; reflexivity. Qed.
End StrokeWitness.

(** * The life of the card: timers and size *)

Section CardLife.
Import String.
Open Scope string_scope.
Variables (EntityConfig Options : Type) (entity_only : string -> EntityConfig).
Variable w0 : Card.Window.
Hypothesis w0_handles : Card.handles_ok w0.

Local Abbreviation card_t := (Card.card EntityConfig Options).
Local Abbreviation ok := (Card.timers_ok (EntityConfig := EntityConfig) (Options := Options) w0).

Lemma clear_keeps_others h :
  (Card.next_handle w0 <= h)%Z ->
  filter (fun t : Z * Q => negb (fst t =? h)%Z) (Card.intervals w0)
  = Card.intervals w0.
Proof.
  intros Hh. destruct w0_handles as [_ Hall].
  induction (Card.intervals w0) as [|t rest IH]; [reflexivity|].
  cbn [filter].
  assert (Ht : (fst t < Card.next_handle w0)%Z) by (apply Hall; now left).
  replace (fst t =? h)%Z with false by (symmetry; apply Z.eqb_neq; lia).
  cbn [negb]. f_equal. apply IH. intros u Hu. apply Hall. now right.
Qed.

(** Clearing the timer the card holds leaves the timers of before. *)
Lemma clear_own (c : card_t) (w : Card.Window) h :
  ok (c, w) -> Card._timerId c = Some h ->
  Card.intervals (Card.clearInterval h w) = Card.intervals w0
  /\ Card.next_handle (Card.clearInterval h w) = Card.next_handle w.
Proof.
  intros (Hn & Hh & Hi) Et. cbn [fst snd] in *. split; [|reflexivity].
  specialize (Hh h Et). unfold Card.clearInterval. cbn [Card.intervals].
  destruct Hi as [-> | (h' & delay & Et' & ->)].
  - apply clear_keeps_others. lia.
  - rewrite Et in Et'. injection Et' as <-. cbn [filter fst].
    rewrite Z.eqb_refl. cbn [negb]. apply clear_keeps_others. lia.
Qed.

Lemma setup_ok (c : card_t) (w : Card.Window) :
  ok (c, w) -> ok (Card._setupUpdateInterval c w).
Proof.
  intros H. pose proof H as (Hn & Hh & Hi). cbn [fst snd] in *.
  destruct w0_handles as [Hpos _].
  unfold Card._setupUpdateInterval.
  set (w1 := match Card._timerId c with
             | Some handle => if (handle =? 0)%Z then w else Card.clearInterval handle w
             | None => w
             end).
  assert (H1 : Card.intervals w1 = Card.intervals w0
               /\ Card.next_handle w1 = Card.next_handle w).
  { unfold w1. destruct (Card._timerId c) as [h|] eqn:Et.
    - specialize (Hh h eq_refl).
      replace (h =? 0)%Z with false by (symmetry; apply Z.eqb_neq; lia).
      now apply (clear_own H).
    - split; [|reflexivity]. destruct Hi as [-> | (h & d & Et' & _)];
        [reflexivity | discriminate]. }
  destruct H1 as [Hi1 Hn1]. clearbody w1.
  assert (Hstay : ok (c, w1)).
  { split; [|split]; cbn [fst snd].
    - lia.
    - intros h E. rewrite Hn1. now apply Hh.
    - now left. }
  destruct (Card._config c) as [cfg|]; [|exact Hstay].
  destruct (Card.update_interval cfg) as [interval|]; [|exact Hstay].
  destruct (Qeq_bool interval 0); [exact Hstay|].
  cbn. split; [|split]; cbn [fst snd Card._timerId Card.next_handle Card.intervals].
  - lia.
  - intros h E. injection E as <-. lia.
  - right. eexists _, _. split; [reflexivity|]. now rewrite Hi1.
Qed.

Lemma perform_ok (k : Card.call EntityConfig Options) (state : card_t * Card.Window) :
  ok state -> ok (Card.perform entity_only k state).
Proof.
  destruct state as [c w]. intros H. destruct k as [config| |]; cbn [Card.perform fst snd].
  - unfold Card.setConfig. destruct (Card.rejects config); [exact H|].
    cbn [snd]. apply setup_ok.
    destruct H as (Hn & Hh & Hi). split; [|split]; cbn [fst snd] in *; trivial.
  - now apply setup_ok.
  - unfold Card.disconnectedCallback.
    destruct (Card._timerId c) as [h|] eqn:Et; [|exact H].
    destruct (h =? 0)%Z; [exact H|].
    destruct (clear_own H Et) as [Hi Hn'].
    destruct H as (Hn & Hh & _). cbn [fst snd] in *.
    split; [|split]; cbn [fst snd Card._timerId].
    + rewrite Hn'. exact Hn.
    + discriminate.
    + now left.
Qed.

Lemma perform_all_ok (calls : list (Card.call EntityConfig Options))
    (state : card_t * Card.Window) :
  ok state -> ok (Card.perform_all entity_only calls state).
Proof.
  revert state. induction calls as [|k rest IH]; intros state H; [exact H|].
  cbn [Card.perform_all fold_left]. apply IH. now apply perform_ok.
Qed.

Lemma fresh_ok (c : card_t) : Card._timerId c = None -> ok (c, w0).
Proof.
  intros E. split; [|split]; cbn [fst snd].
  - lia.
  - rewrite E. discriminate.
  - now left.
Qed.
End CardLife.

(** X10: whatever the dashboard does to a card that holds no timer, in any
    order ([setConfig] with any configuration, attaching, detaching), the
    window keeps the timers it had before, untouched, and at most one more:
    the timer whose handle the card holds in [_timerId]. *)
Theorem card_keeps_one_timer (EntityConfig Options : Type)
    (entity_only : String.string -> EntityConfig)
    (w0 : Card.Window) (c0 : Card.card EntityConfig Options)
    (calls : list (Card.call EntityConfig Options)) :
  Card.handles_ok w0 -> Card._timerId c0 = None ->
  let state := Card.perform_all entity_only calls (c0, w0) in
  Card.intervals (snd state) = Card.intervals w0
  \/ exists h delay,
       Card._timerId (fst state) = Some h
       /\ (Card.next_handle w0 <= h)%Z
       /\ Card.intervals (snd state) = (h, delay) :: Card.intervals w0.
Proof.
  intros Hw E state.
  assert (H : Card.timers_ok w0 state)
    by (apply perform_all_ok; trivial; apply fresh_ok; trivial).
  destruct H as (_ & Hh & Hi).
  destruct Hi as [Hi | (h & delay & Et & Hi)]; [now left|].
  right. exists h, delay. repeat split; trivial. now apply Hh.
Qed.

(** X11: after [disconnectedCallback], whatever came before, no timer of the
    card is left in the window and [_timerId] is empty. *)
Theorem detached_card_has_no_timer (EntityConfig Options : Type)
    (entity_only : String.string -> EntityConfig)
    (w0 : Card.Window) (c0 : Card.card EntityConfig Options)
    (calls : list (Card.call EntityConfig Options)) :
  Card.handles_ok w0 -> Card._timerId c0 = None ->
  let state :=
    Card.perform_all entity_only (calls ++ [Card.DisconnectedCallback _ _]) (c0, w0) in
  Card.intervals (snd state) = Card.intervals w0
  /\ Card._timerId (fst state) = None.
Proof.
  intros Hw E state. unfold state, Card.perform_all. rewrite fold_left_app.
  cbn [fold_left]. fold (Card.perform_all entity_only calls (c0, w0)).
  assert (H : Card.timers_ok w0 (Card.perform_all entity_only calls (c0, w0)))
    by (apply perform_all_ok; trivial; apply fresh_ok; trivial).
  destruct (Card.perform_all entity_only calls (c0, w0)) as [c w].
  cbn [Card.perform fst snd]. unfold Card.disconnectedCallback.
  destruct (Card._timerId c) as [h|] eqn:Et.
  - pose proof H as (_ & Hh & _). cbn [fst snd] in Hh. specialize (Hh h Et).
    destruct Hw as [Hpos Hall].
    replace (h =? 0)%Z with false by (symmetry; apply Z.eqb_neq; lia).
    cbn [fst snd Card._timerId]. split; [|reflexivity].
    eapply clear_own; [split; eassumption | exact H | exact Et].
  - cbn [fst snd]. split; [|exact Et].
    destruct H as (_ & _ & [Hi | (h & d & Et' & _)]); [exact Hi|].
    cbn [fst] in Et'. congruence.
Qed.

Lemma card_keeps_one_timer_witness :
  let state :=
    Card.perform_all (fun _ => tt)
      [Card.SetConfig (Some (polling 60)); Card.ConnectedCallback _ _;
       Card.SetConfig (Some (polling 30)); Card.SetConfig None]
      (Card.fresh unit unit, no_timers) in
  Card.intervals (snd state) = Card.intervals no_timers
  \/ exists h delay,
       Card._timerId (fst state) = Some h
       /\ (Card.next_handle no_timers <= h)%Z
       /\ Card.intervals (snd state) = (h, delay) :: Card.intervals no_timers.
Proof.
  apply (@card_keeps_one_timer unit unit (fun _ => tt) no_timers (Card.fresh unit unit)).
  - split; [reflexivity | intros t []].
  - reflexivity.
Defined.

Lemma detached_card_has_no_timer_witness :
  let state :=
    Card.perform_all (fun _ => tt)
      ([Card.SetConfig (Some (polling 60)); Card.ConnectedCallback _ _]
       ++ [Card.DisconnectedCallback _ _])
      (Card.fresh unit unit, no_timers) in
  Card.intervals (snd state) = Card.intervals no_timers
  /\ Card._timerId (fst state) = None.
Proof.
  apply (@detached_card_has_no_timer unit unit (fun _ => tt) no_timers
           (Card.fresh unit unit)).
  - split; [reflexivity | intros t []].
  - reflexivity.
Defined.

(** Two configurations and an attachment leave the one timer of the last
    configuration, every 30 seconds. *)
Example timers_after_reconfiguration :
  let state :=
    Card.perform_all (fun _ => tt)
      [Card.SetConfig (Some (polling 60)); Card.ConnectedCallback _ _;
       Card.SetConfig (Some (polling 30))]
      (Card.fresh unit unit, no_timers) in
  map (fun t => (fst t, Qred (snd t))) (Card.intervals (snd state)) = [(3%Z, 30000%Q)]
  /\ Card._timerId (fst state) = Some 3%Z.
Proof. split; reflexivity. Qed.

Section CardSize.
Import String.
Open Scope string_scope.
Variables (EntityConfig Options : Type) (entity_only : string -> EntityConfig).
Variable length_of_other : bool -> option nat.

Local Abbreviation card_t := (Card.card EntityConfig Options).

(** The card is not configured, or it holds a configuration with one entity
    or more and these entities as objects. *)
Let configured (c : card_t) : Prop :=
  Card._config c = None
  \/ exists cfg e l,
       Card._config c = Some cfg
       /\ Card.entities cfg = Card.Entries (e :: l)
       /\ Card._entities c = map (Card.normalise entity_only) (e :: l).

Lemma accepted_has_entities (cfg : Card.BackgroundGraphEntitiesConfig EntityConfig Options) :
  Card.rejects (Some cfg) = false -> exists e l, Card.entities cfg = Card.Entries (e :: l).
Proof.
  unfold Card.rejects. destruct (Card.entities cfg) as [|t|[|e l]]; cbn; try discriminate.
  - destruct t; discriminate.
  - eauto.
Qed.

Lemma perform_configured (k : Card.call EntityConfig Options)
    (state : card_t * Card.Window) :
  configured (fst state) -> configured (fst (Card.perform entity_only k state)).
Proof.
  destruct state as [c w]. cbn [fst]. intros H.
  destruct k as [config| |]; cbn [Card.perform fst snd].
  - unfold Card.setConfig. destruct (Card.rejects config) eqn:Er; [exact H|].
    cbn [snd].
    match goal with
    | |- configured (fst (Card._setupUpdateInterval ?c1 w)) =>
        destruct (setup_keeps_configuration c1 w) as (H1 & H2 & _);
        unfold configured; rewrite H1, H2
    end.
    cbn [Card._config Card._entities].
    destruct config as [cfg|]; [|discriminate].
    destruct (accepted_has_entities cfg Er) as (e & l & He).
    right. exists cfg, e, l. repeat split; trivial.
    destruct cfg as [ents ui opts]. cbn in He. now subst ents.
  - unfold Card.connectedCallback.
    destruct (setup_keeps_configuration c w) as (H1 & H2 & _).
    unfold configured. now rewrite H1, H2.
  - unfold Card.disconnectedCallback.
    destruct (Card._timerId c) as [h|]; [|exact H].
    destruct (h =? 0)%Z; exact H.
Qed.

Lemma perform_all_configured (calls : list (Card.call EntityConfig Options))
    (state : card_t * Card.Window) :
  configured (fst state) -> configured (fst (Card.perform_all entity_only calls state)).
Proof.
  revert state. induction calls as [|k rest IH]; intros state H; [exact H|].
  cbn [Card.perform_all fold_left]. apply IH. now apply perform_configured.
Qed.

(** X12: whatever the dashboard did to a card since its construction,
    [getCardSize] does not throw: it is 1 while the card has no
    configuration, and the number of configured entities plus one
    afterwards, the entities being those in [_entities]. *)
Theorem card_size_counts_entities (w : Card.Window)
    (calls : list (Card.call EntityConfig Options)) :
  let c := fst (Card.perform_all entity_only calls (Card.fresh _ _, w)) in
  (Card._config c = None /\ Card.getCardSize length_of_other c = Card.Done 1%nat)
  \/ (exists cfg e l,
        Card._config c = Some cfg
        /\ Card.entities cfg = Card.Entries (e :: l)
        /\ Card._entities c = map (Card.normalise entity_only) (e :: l)
        /\ Card.getCardSize length_of_other c
           = Card.Done (List.length (Card._entities c) + 1)%nat).
Proof.
  intros c.
  assert (H : configured c)
    by (apply perform_all_configured; left; reflexivity).
  unfold Card.getCardSize.
  destruct H as [E | (cfg & e & l & E & He & Hent)].
  - left. now rewrite E.
  - right. exists cfg, e, l. rewrite E, He, Hent. repeat split.
    cbn [List.length]. now rewrite length_map.
Qed.
End CardSize.

Section CardSizeExample.
Import String.
Local Open Scope string_scope.

(** 'should return correct card size' *)
Example card_size_of_three :
  Card.getCardSize (fun _ => None)
    (fst (Card.perform_all (fun _ => tt)
            [Card.SetConfig
               (Some {| Card.entities :=
                          Card.Entries [Card.EntityId _ "sensor.test";
                                        Card.EntityId _ "sensor.test2";
                                        Card.EntityId _ "sensor.test3"];
                        Card.update_interval := None;
                        Card.options := tt |})]
            (Card.fresh unit unit, no_timers)))
  = Card.Done 4%nat.
Proof. reflexivity. Qed.
End CardSizeExample.

(** ** The retries of [_renderD3Graph] *)

Lemma attempts_count (config : Appearance.Config.t) (n : nat) :
  forall (retries : Graph.RetryMap) (end_ : Date (R := Q)) (container : nat)
         (history : option (list (point Q)))
         (entityConfig : option Appearance.Entity.t),
    let r := Graph.attempts config n retries end_ container history entityConfig in
    let frames := Nat.min n (Graph.MAX_RETRIES - retries container) in
    snd r = frames
    /\ fst r container = (retries container + frames)%nat
    /\ forall c, c <> container -> fst r c = retries c.
Proof.
  induction n as [|n IH]; intros retries end_ container history entityConfig.
  - cbn. repeat split; lia.
  - cbn zeta. cbn [Graph.attempts]. unfold Graph._renderD3Graph. cbn [negb].
    destruct (retries container <? Graph.MAX_RETRIES)%nat eqn:E.
    + specialize (IH (Graph.set retries container (retries container + 1))
                     end_ container history entityConfig).
      cbn zeta in IH.
      destruct (Graph.attempts config n _ end_ container history entityConfig)
        as [retries'' frames].
      cbn [fst snd] in *. destruct IH as (IH1 & IH2 & IH3).
      apply Nat.ltb_lt in E.
      unfold Graph.set in IH1, IH2. rewrite Nat.eqb_refl in IH1, IH2.
      split; [|split].
      * rewrite IH1. unfold Graph.MAX_RETRIES in *. lia.
      * rewrite IH2. unfold Graph.MAX_RETRIES in *. lia.
      * intros c Hc. rewrite (IH3 c Hc). unfold Graph.set.
        apply Nat.eqb_neq in Hc. now rewrite Hc.
    + specialize (IH retries end_ container history entityConfig).
      cbn zeta in IH.
      destruct (Graph.attempts config n retries end_ container history entityConfig)
        as [retries'' frames].
      cbn [fst snd] in *. destruct IH as (IH1 & IH2 & IH3).
      apply Nat.ltb_ge in E.
      split; [|split].
      * rewrite IH1. unfold Graph.MAX_RETRIES in *. lia.
      * rewrite IH2. unfold Graph.MAX_RETRIES in *. lia.
      * exact IH3.
Qed.

(** X14: however often [_renderD3Graph] is called for a container that is
    not ready, it asks for a new frame at most [MAX_RETRIES] times less the
    retries already counted, and counts each one; the counts of the other
    containers stay; and a call on the container once it is ready sets its
    count back to 0. *)
Theorem retries_are_bounded (config : Appearance.Config.t) (n : nat)
    (retries : Graph.RetryMap) (end_ : Date (R := Q)) (container : nat)
    (history : option (list (point Q)))
    (entityConfig : option Appearance.Entity.t) :
  let r := Graph.attempts config n retries end_ container history entityConfig in
  let frames := Nat.min n (Graph.MAX_RETRIES - retries container) in
  snd r = frames
  /\ fst r container = (retries container + frames)%nat
  /\ (forall c, c <> container -> fst r c = retries c)
  /\ fst (Graph._renderD3Graph config (fst r) true end_ container history
            entityConfig) container = 0%nat.
Proof.
  intros r frames.
  destruct (@attempts_count config n retries end_ container history entityConfig)
    as (H1 & H2 & H3).
  repeat split; try assumption.
  unfold Graph._renderD3Graph. cbn [negb].
  assert (E : Graph.set (fst r) container 0 container = 0%nat)
    by (unfold Graph.set; now rewrite Nat.eqb_refl).
  destruct history as [[|s0 rest]|]; cbn [fst]; try exact E.
  destruct (List.length _ <? 2)%nat; exact E.
Qed.

(** ** From the fetch to the graph *)

Section Stored.
Import String.
Local Open Scope string_scope.
Variable H : Type.

Local Abbreviation key_of := (fun e : History.EntityConfig =>
  History.graphEntityId e (History.entity e)).

Lemma get_set (V : Type) (m : History.Map V) (k k' : String.string) (v : V) :
  History.get (History.set m k v) k'
  = if k =? k' then Some v else History.get m k'.
Proof.
  induction m as [|[k0 v0] m IH]; cbn [History.set History.get].
  - reflexivity.
  - destruct (k0 =? k) eqn:E0; cbn [History.get].
    + apply String.eqb_eq in E0. subst k0.
      destruct (k =? k'); reflexivity.
    + destruct (k0 =? k') eqn:E1.
      * apply String.eqb_eq in E1. subst k0.
        rewrite String.eqb_sym in E0. now rewrite E0.
      * exact IH.
Qed.

Lemma get_absent (V : Type) (m : History.Map V) (k : String.string) :
  ~ In k (map fst m) -> History.get m k = None.
Proof.
  induction m as [|[k0 v0] m IH]; cbn [History.get map fst]; [reflexivity|].
  intros Hn. destruct (k0 =? k) eqn:E.
  - apply String.eqb_eq in E. exfalso. apply Hn. now left.
  - apply IH. intros Hin. apply Hn. now right.
Qed.

Lemma set_keys (V : Type) (m : History.Map V) (k : String.string) (v : V) :
  forall k', In k' (map fst (History.set m k v)) -> k' = k \/ In k' (map fst m).
Proof.
  induction m as [|[k0 v0] m IH]; intros k'; cbn [History.set].
  - cbn. intuition.
  - destruct (k0 =? k); cbn [map fst In].
    + intuition.
    + intros [E | Hin]; [now right; left|].
      destruct (IH k' Hin); [now left | now right; right].
Qed.

Lemma set_NoDup (V : Type) (m : History.Map V) (k : String.string) (v : V) :
  NoDup (map fst m) -> NoDup (map fst (History.set m k v)).
Proof.
  induction m as [|[k0 v0] m IH]; cbn [History.set]; intros Hnd.
  - cbn. constructor; [intros []|constructor].
  - destruct (k0 =? k) eqn:E; cbn [map fst] in *.
    + exact Hnd.
    + inversion Hnd as [|? ? Hn Hnd']; subst. constructor.
      * intros Hin. apply set_keys in Hin. destruct Hin as [-> | Hin].
        -- now rewrite String.eqb_refl in E.
        -- now apply Hn.
      * now apply IH.
Qed.

Local Abbreviation store := (fun (newHistory : History.Map (option H))
    '(entityConf, history) =>
  History.set newHistory
    (History.graphEntityId entityConf (History.entity entityConf)) history).

Lemma stored_NoDup (completed : list (History.EntityConfig * option H)) :
  forall m, NoDup (map fst m) -> NoDup (map fst (fold_left store completed m)).
Proof.
  induction completed as [|[e r] rest IH]; intros m Hm; cbn [fold_left].
  - exact Hm.
  - apply IH. now apply set_NoDup.
Qed.

Lemma stored_get (completed : list (History.EntityConfig * option H)) :
  (forall e1 r1 e2 r2,
      In (e1, r1) completed -> In (e2, r2) completed ->
      key_of e1 = key_of e2 -> r1 = r2) ->
  forall e r, In (e, r) completed ->
    History.get (fold_left store completed []) (key_of e) = Some r.
Proof.
  induction completed as [|[e0 r0] pre IH] using rev_ind; intros Hsame e r Hin.
  - destruct Hin.
  - rewrite fold_left_app. cbn [fold_left]. rewrite get_set.
    destruct (key_of e0 =? key_of e) eqn:E.
    + apply String.eqb_eq in E. f_equal.
      apply (Hsame e0 r0 e r); [apply in_or_app; right; now left | exact Hin | exact E].
    + apply in_app_or in Hin. destruct Hin as [Hin | [Heq | []]].
      * apply IH; [|exact Hin].
        intros e1 r1 e2 r2 H1 H2. apply Hsame; apply in_or_app; now left.
      * inversion Heq; subst. now rewrite String.eqb_refl in E.
Qed.

Lemma filtered_get (m : History.Map (option H)) (k : String.string) :
  NoDup (map fst m) ->
  History.get
    (flat_map (fun '(key, v) => match v with Some h => [(key, h)] | None => [] end) m) k
  = match History.get m k with Some (Some h) => Some h | _ => None end.
Proof.
  induction m as [|[k0 v0] m IH]; intros Hnd; cbn [flat_map History.get].
  - reflexivity.
  - cbn [map fst] in Hnd. inversion Hnd as [|? ? Hn Hnd']; subst.
    destruct (k0 =? k) eqn:E.
    + apply String.eqb_eq in E. subst k0.
      destruct v0 as [h|]; cbn [app History.get].
      * now rewrite String.eqb_refl.
      * rewrite (IH Hnd'). now rewrite (get_absent _ _ Hn).
    + destruct v0 as [h|]; cbn [app History.get].
      * rewrite E. exact (IH Hnd').
      * exact (IH Hnd').
Qed.

Lemma find_row (_entities : list History.EntityConfig) (e : History.EntityConfig) :
  NoDup (map History.entity _entities) -> In e _entities ->
  find (fun x => History.entity x =? History.entity e) _entities = Some e.
Proof.
  induction _entities as [|x xs IH]; intros Hnd Hin; [destruct Hin|].
  cbn [map] in Hnd. inversion Hnd as [|? ? Hn Hnd']; subst.
  cbn [find]. destruct Hin as [-> | Hin].
  - now rewrite String.eqb_refl.
  - destruct (History.entity x =? History.entity e) eqn:E.
    + apply String.eqb_eq in E. exfalso. apply Hn. rewrite E. now apply in_map.
    + now apply IH.
Qed.

Lemma find_some_row (_entities : list History.EntityConfig) (id : String.string) :
  In id (map History.entity _entities) ->
  exists e, find (fun x => History.entity x =? id) _entities = Some e.
Proof.
  induction _entities as [|x xs IH]; intros Hin; [destruct Hin|].
  cbn [find]. destruct (History.entity x =? id) eqn:E; [now exists x|].
  destruct Hin as [Hx | Hin]; [|now apply IH].
  cbn in Hx. subst id. now rewrite String.eqb_refl in E.
Qed.

Lemma forEach_draws (_entities : list History.EntityConfig) (_history : History.Map H)
    (containers : list String.string) :
  NoDup (map History.entity _entities) ->
  incl containers (map History.entity _entities) ->
  exists calls,
    History.forEach _entities _history containers = Some calls
    /\ forall e, In e _entities -> In (History.entity e) containers ->
         History.entity e <> "" ->
         In (History.Draw (History.entity e) (History.get _history (key_of e)) e) calls.
Proof.
  intros Hnd. induction containers as [|id rest IH]; intros Hincl.
  - exists []. split; [reflexivity | intros e _ []].
  - destruct IH as (calls & Ecalls & Hcalls).
    { intros x Hx. apply Hincl. now right. }
    cbn [History.forEach]. unfold History.truthy.
    destruct (id =? "") eqn:Eid; cbn [negb].
    + exists calls. split; [exact Ecalls|].
      intros e He [Hid | Hin] Hne.
      * apply String.eqb_eq in Eid. congruence.
      * now apply Hcalls.
    + destruct (@find_some_row _entities id) as [e0 E0]; [apply Hincl; now left|].
      rewrite E0, Ecalls. cbn [option_map]. eexists. split; [reflexivity|].
      intros e He [Hid | Hin] Hne.
      * subst id. rewrite (@find_row _entities e Hnd He) in E0. inversion E0; subst e0.
        now left.
      * right. now apply Hcalls.
Qed.

(** X15: from the fetch to the graph.  If no two rows have the same
    [entity], and the fetches that complete are those of rows of the card,
    two fetches for one graph entity giving one answer, then
    [_renderAllGraphs] after [_fetchAndStoreAllHistory] does not throw and
    calls [_renderD3Graph] for each row with a name, with the container of
    the row, what [_fetchHistory] gave for the row ([null] having become
    [undefined]) and the row itself. *)
Theorem row_draws_its_history (_entities : list History.EntityConfig)
    (completed : list (History.EntityConfig * option H))
    (_history : History.Map H) :
  NoDup (map History.entity _entities) ->
  incl (map fst completed) _entities ->
  (forall e1 r1 e2 r2,
      In (e1, r1) completed -> In (e2, r2) completed ->
      key_of e1 = key_of e2 -> r1 = r2) ->
  exists calls,
    History._renderAllGraphs true true _entities
      (History._fetchAndStoreAllHistory _entities completed _history)
      (History.containers _entities) = Some calls
    /\ forall e r, In (e, r) completed -> History.entity e <> "" ->
         In (History.Draw (History.entity e) r e) calls.
Proof.
  intros Hnd Hincl Hsame.
  unfold History._renderAllGraphs. cbn [negb].
  destruct (@forEach_draws _entities
              (History._fetchAndStoreAllHistory _entities completed _history)
              (History.containers _entities) Hnd (incl_refl _))
    as (calls & Ecalls & Hcalls).
  exists calls. split; [exact Ecalls|].
  intros e r Hin Hne.
  assert (He : In e _entities)
    by (apply Hincl; change e with (fst (e, r)); now apply in_map).
  specialize (Hcalls e He (in_map _ _ _ He) Hne).
  replace (History.get _ (key_of e)) with r in Hcalls; [exact Hcalls|].
  unfold History._fetchAndStoreAllHistory.
  destruct _entities as [|x xs]; [destruct He|].
  cbn [List.length Nat.eqb].
  rewrite filtered_get by (apply stored_NoDup; constructor).
  rewrite (@stored_get completed Hsame e r Hin).
  now destruct r.
Qed.
End Stored.

Section StoredExamples.
Import String.
Local Open Scope string_scope.

Lemma row_draws_its_history_witness :
  let a := {| History.entity := "sensor.a"; History.graph_entity := None |} in
  let b := {| History.entity := "sensor.b"; History.graph_entity := Some "sensor.c" |} in
  exists calls,
    History._renderAllGraphs true true [a; b]
      (History._fetchAndStoreAllHistory [a; b] [(b, Some 7%nat); (a, None)] [])
      (History.containers [a; b]) = Some calls
    /\ forall e r, In (e, r) [(b, Some 7%nat); (a, None)] -> History.entity e <> "" ->
         In (History.Draw (History.entity e) r e) calls.
Proof.
  intros a b.
  apply (@row_draws_its_history nat [a; b] [(b, Some 7%nat); (a, None)] []).
  - repeat constructor; simpl; intuition discriminate.
  - intros x [<- | [<- | []]]; simpl; auto.
  - intros e1 r1 e2 r2 [E1 | [E1 | []]] [E2 | [E2 | []]];
      inversion E1; inversion E2; subst; trivial; discriminate.
Defined.

(** Two rows with one [entity]: the container of the second row is drawn
    with the first row and the history of the first row's graph entity. *)
Example rows_sharing_an_entity :
  let a := {| History.entity := "sensor.a"; History.graph_entity := None |} in
  let a' := {| History.entity := "sensor.a"; History.graph_entity := Some "sensor.c" |} in
  History._renderAllGraphs true true [a; a']
    (History._fetchAndStoreAllHistory [a; a'] [(a, Some 1%nat); (a', Some 2%nat)] [])
    (History.containers [a; a'])
  = Some [History.Draw "sensor.a" (Some 1%nat) a; History.Draw "sensor.a" (Some 1%nat) a].
Proof. reflexivity. Qed.
End StoredExamples.

(** ** [_fetchHistory] with the defaults, in double arithmetic *)

Section FetchDefaults.
Variable toNumber : String.string -> float.
Variable isNaN : float -> bool.
Variable start_toISOString : float -> option String.string.
Variable now_toISOString : String.string.

Lemma or_default_missing (x : option float) (d : Z) :
  (forall v, x = Some v -> ltb v zero = false /\ ltb zero v = false) ->
  History.or_default x d = of_Z d.
Proof.
  intros Hx. unfold History.or_default. destruct x as [v|]; [|reflexivity].
  destruct (Hx v eq_refl) as [E1 E2]. now rewrite E1, E2.
Qed.

(** X16: in double arithmetic, [_fetchHistory] with [hours_to_show] and
    [points_per_hour] missing, 0 or [NaN] asks for the last 24 hours, does
    not hand the states over as they are, and, for a reply with states of
    which one at least is a number, returns 25 elements: the anchor 24
    hours before the clock and one bucket for each hour, the last one
    stamped with the clock. *)
Theorem fetch_defaults_to_hourly (callWS : History.request -> History.reply)
    (history : String.string -> option (list (History.State (R := float))))
    (states : list (History.State (R := float)))
    (hours_to_show points_per_hour : option float) (endpoint : Date (R := float))
    (t : Z) (entityId start : String.string) :
  (forall v, hours_to_show = Some v -> ltb v zero = false /\ ltb zero v = false) ->
  (forall v, points_per_hour = Some v -> ltb v zero = false /\ ltb zero v = false) ->
  start_toISOString (of_Z History.DEFAULT_HOURS_TO_SHOW) = Some start ->
  callWS {| History.start_time := start;
            History.end_time := now_toISOString;
            History.entity_ids := [entityId] |} = History.Resolves history ->
  history entityId = Some states ->
  History.finalStates toNumber isNaN states <> [] ->
  (86400000 <= t <= 8640000000000000)%Z ->
  exists r,
    History._fetchHistory toNumber isNaN start_toISOString now_toISOString
      (Some callWS) hours_to_show points_per_hour endpoint (of_Z t) entityId
    = Returns (Some r)
    /\ List.length r = 25%nat
    /\ map timestamp r
       = map (fun i => of_Z (t - 86400000 + Z.of_nat i * 3600000)%Z) (seq 0 25)
    /\ option_map timestamp (nth_error r 24) = Some (of_Z t).
Proof.
  intros Hh Hk Hstart Ecall Ehist Hne Ht.
  unfold History._fetchHistory.
  rewrite (or_default_missing History.DEFAULT_HOURS_TO_SHOW Hh).
  rewrite (or_default_missing History.DEFAULT_POINTS_PER_HOUR Hk).
  rewrite Hstart, Ecall, Ehist.
  destruct (@grid_of_whole_hours endpoint (History.finalStates toNumber isNaN states)
              t 24 1 Hne) as (r & E & Hlen & Hts & Hlast); try lia.
  { exists 3600000%Z. reflexivity. }
  exists r.
  change (of_Z History.DEFAULT_HOURS_TO_SHOW) with (of_Z 24 : float).
  change (of_Z History.DEFAULT_POINTS_PER_HOUR) with (of_Z 1 : float).
  rewrite E. cbn [bind]. split; [reflexivity|].
  split; [exact Hlen|]. split; [exact Hts|]. exact Hlast.
Qed.
End FetchDefaults.

Section FetchExample.
Import String.
Local Open Scope string_scope.

Lemma fetch_defaults_to_hourly_witness :
  let states := [ {| History.s := "on"; History.lu := 1672570800%float |};
                  {| History.s := "unavailable"; History.lu := 1672572600%float |};
                  {| History.s := "off"; History.lu := 1672574000%float |} ] in
  let toNumber := fun _ : String.string => nan in
  exists r,
    History._fetchHistory (num := Double.number) toNumber PrimFloat.is_nan
      (fun _ => Some "2022-12-31T12:00:00.000Z") "2023-01-01T12:00:00.000Z"
      (Some (fun _ => History.Resolves (fun _ => Some states)))
      (Some 0%float) None Scenario.now (Double.from_Z Scenario.mockNow) "switch.test"
    = Returns (Some r)
    /\ List.length r = 25%nat
    /\ map timestamp r
       = map (fun i => Double.from_Z (Scenario.mockNow - 86400000 + Z.of_nat i * 3600000)%Z)
           (seq 0 25)
    /\ option_map timestamp (nth_error r 24) = Some (Double.from_Z Scenario.mockNow).
Proof.
  intros states toNumber.
  apply (@fetch_defaults_to_hourly toNumber PrimFloat.is_nan
           (fun _ => Some "2022-12-31T12:00:00.000Z") "2023-01-01T12:00:00.000Z"
           (fun _ => History.Resolves (fun _ => Some states))
           (fun _ => Some states) states (Some 0%float) None
           Scenario.now Scenario.mockNow "switch.test" "2022-12-31T12:00:00.000Z").
  - intros v E. inversion E. split; reflexivity.
  - intros v E. discriminate.
  - reflexivity.
  - reflexivity.
  - reflexivity.
  - discriminate.
  - vm_compute. split; discriminate.
Defined.
End FetchExample.
